(** * The file discovery engine of the files plugin

    A shallow embedding of [plugins/files/__init__.py]: the configuration
    record and its loader, the delegate backend [_scan_with_fd], the
    fallback walker [_scan_with_python] and the selector [_scan_files],
    followed by the properties of the scan result.

    Python [str] values are modelled by [string]; a character stands for a
    code point below 256.  Python [int] values are modelled by [Z]. *)

From Stdlib Require Import String Ascii List ZArith Lia Bool DecimalString.
From Stdlib Require Import Permutation Sorted.
From Stdlib Require DecimalZ DecimalPos.
Import ListNotations.

Open Scope string_scope.
Open Scope list_scope.

(** ** Python string operations used by the plugin *)

Module PyStr.

Definition sep : ascii := "/"%char.
Definition dot : ascii := "."%char.
Definition newline : ascii := ascii_of_nat 10.

(** [s.startswith(c)] for a one-character prefix. *)
Definition startswith (c : ascii) (s : string) : bool :=
  match s with
  | String a _ => Ascii.eqb a c
  | EmptyString => false
  end.

(** [s.endswith(c)] for a one-character suffix. *)
Fixpoint endswith (c : ascii) (s : string) : bool :=
  match s with
  | EmptyString => false
  | String a EmptyString => Ascii.eqb a c
  | String _ s' => endswith c s'
  end.

(** [s.count(c)] for a one-character needle. *)
Fixpoint count (c : ascii) (s : string) : nat :=
  match s with
  | EmptyString => 0
  | String a s' => (if Ascii.eqb a c then 1 else 0) + count c s'
  end.

(** [c in s]. *)
Fixpoint contains (c : ascii) (s : string) : bool :=
  match s with
  | EmptyString => false
  | String a s' => Ascii.eqb a c || contains c s'
  end.

(** [s.lstrip(".")]: every leading dot is removed. *)
Fixpoint lstrip_dots (s : string) : string :=
  match s with
  | String a s' => if Ascii.eqb a dot then lstrip_dots s' else s
  | EmptyString => EmptyString
  end.

(** [s.rfind(".")]: the index of the last dot, [None] for Python's -1. *)
Fixpoint rfind_dot (s : string) : option nat :=
  match s with
  | EmptyString => None
  | String a s' =>
      match rfind_dot s' with
      | Some i => Some (S i)
      | None => if Ascii.eqb a dot then Some 0 else None
      end
  end.

(** The slice [s[i:]]. *)
Fixpoint slice_from (i : nat) (s : string) : string :=
  match i, s with
  | O, _ => s
  | S i', String _ s' => slice_from i' s'
  | S _, EmptyString => EmptyString
  end.

(** [pathlib.PurePath(name).suffix] for a single path component:
    [i = name.rfind(".")]; the result is [name[i:]] when
    [0 < i < len(name) - 1] and the empty string otherwise. *)
Definition suffix (name : string) : string :=
  match rfind_dot name with
  | Some i =>
      if ((0 <? i) && (i + 1 <? String.length name))%nat then slice_from i name
      else EmptyString
  | None => EmptyString
  end.

(** [str.isspace] on the code points below 256. *)
Definition isspace (c : ascii) : bool :=
  let n := nat_of_ascii c in
  (((9 <=? n) && (n <=? 13)) || ((28 <=? n) && (n <=? 32))
   || (n =? 133) || (n =? 160))%nat.

Fixpoint lstrip (s : string) : string :=
  match s with
  | String a s' => if isspace a then lstrip s' else s
  | EmptyString => EmptyString
  end.

Fixpoint rstrip (s : string) : string :=
  match s with
  | EmptyString => EmptyString
  | String a s' =>
      match rstrip s' with
      | EmptyString => if isspace a then EmptyString else String a EmptyString
      | t => String a t
      end
  end.

(** [s.strip()]. *)
Definition strip (s : string) : string := rstrip (lstrip s).

(** [s.split("\n")]; the empty string splits into one empty piece. *)
Fixpoint split_lines (s : string) : list string :=
  match s with
  | EmptyString => [EmptyString]
  | String a s' =>
      if Ascii.eqb a newline then EmptyString :: split_lines s'
      else
        match split_lines s' with
        | piece :: rest => String a piece :: rest
        | [] => [String a EmptyString]
        end
  end.

(** Truth value of a string: [bool(s)]. *)
Definition nonempty (s : string) : bool :=
  match s with
  | EmptyString => false
  | String _ _ => true
  end.

(** [x in l] for a list of strings. *)
Definition mem (x : string) (l : list string) : bool :=
  existsb (String.eqb x) l.

(** [posixpath.join(a, b)]. *)
Definition os_path_join (a b : string) : string :=
  if startswith sep b then b
  else if negb (nonempty a) || endswith sep a then (a ++ b)%string
  else (a ++ String sep b)%string.

(** [str(n)] for an integer. *)
Definition str_of_int (n : Z) : string :=
  NilZero.string_of_int (Z.to_int n).

(** The slice [l[:n]]; a negative bound counts from the end. *)
Definition slice_to {A : Type} (l : list A) (n : Z) : list A :=
  if (n <? 0)%Z then firstn (length l - Z.to_nat (- n)) l
  else firstn (Z.to_nat n) l.

End PyStr.

Import PyStr.

(** ** Exceptions and results *)

Inductive exn : Type :=
| AttributeError (attr : string)
| TimeoutExpired
| OSError (what : string)
| RuntimeError (what : string).

Inductive pyresult (A : Type) : Type :=
| Ok (a : A)
| Raise (e : exn).

Arguments Ok {A} a.
Arguments Raise {A} e.

Definition bind {A B : Type} (m : pyresult A) (k : A -> pyresult B)
  : pyresult B :=
  match m with
  | Ok a => k a
  | Raise e => Raise e
  end.

Notation "x <- m ;; k" := (bind m (fun x => k))
  (at level 61, m at next level, right associativity).

(** ** The configuration record *)

(** [FilesConfig], with the field types of its annotations. *)
Record FilesConfig : Type := mkFilesConfig {
  scan_paths : list string;
  max_depth : Z;
  include_extensions : list string;
  exclude_patterns : list string;
  max_files : Z
}.

(** [FilesConfig()]: every field from its default or default factory. *)
Definition FilesConfig_default : FilesConfig :=
  {| scan_paths := ["~/Documents"; "~/Downloads"; "~/Projects"];
     max_depth := 5;
     include_extensions := [];
     exclude_patterns :=
       [".git"; "__pycache__"; "node_modules"; ".venv"; "venv"; ".cache"];
     max_files := 10000 |}.

(** Values of the loosely typed configuration record kept by the host. *)
#[local] Set Warnings "-register-all".
Inductive pyval : Type :=
| VNone
| VInt (n : Z)
| VStr (s : string)
| VList (items : list pyval).

Definition VStrs (l : list string) : pyval := VList (map VStr l).

(** A stored record: a [dict] from field names to values. *)
Definition pydict : Type := list (string * pyval).

(** [d.get(key, default)]. *)
Fixpoint dict_get (d : pydict) (key : string) (default : pyval) : pyval :=
  match d with
  | [] => default
  | (k, v) :: d' => if String.eqb k key then v else dict_get d' key default
  end.

(** The object [FilesConfig(...)] as the loader builds it: the arguments
    are stored as given, nothing checks them against the annotations. *)
Record FilesConfigObj : Type := mkFilesConfigObj {
  obj_scan_paths : pyval;
  obj_max_depth : pyval;
  obj_include_extensions : pyval;
  obj_exclude_patterns : pyval;
  obj_max_files : pyval
}.

Definition obj_of_config (c : FilesConfig) : FilesConfigObj :=
  {| obj_scan_paths := VStrs (scan_paths c);
     obj_max_depth := VInt (max_depth c);
     obj_include_extensions := VStrs (include_extensions c);
     obj_exclude_patterns := VStrs (exclude_patterns c);
     obj_max_files := VInt (max_files c) |}.

(** Attribute lookup on the class [FilesConfig] itself.  The [dataclass]
    decorator leaves a class attribute for a field with a plain default
    and deletes the one of a field declared with [field(default_factory=...)],
    so three of the five names are not attributes of the class. *)
Definition FilesConfig_getattr (name : string) : pyresult pyval :=
  if String.eqb name "max_depth" then Ok (VInt 5)
  else if String.eqb name "max_files" then Ok (VInt 10000)
  else Raise (AttributeError name).

(** [_load_config], with [data] the value of [ctx.get_data("config")].
    The keyword arguments are evaluated in the order written, and the
    default passed to [data.get] is evaluated before the call. *)
Definition _load_config (data : option pydict) : pyresult FilesConfigObj :=
  match data with
  | None => Ok (obj_of_config FilesConfig_default)
  | Some d =>
      d1 <- FilesConfig_getattr "scan_paths" ;;
      let a1 := dict_get d "scan_paths" d1 in
      d2 <- FilesConfig_getattr "max_depth" ;;
      let a2 := dict_get d "max_depth" d2 in
      d3 <- FilesConfig_getattr "include_extensions" ;;
      let a3 := dict_get d "include_extensions" d3 in
      d4 <- FilesConfig_getattr "exclude_patterns" ;;
      let a4 := dict_get d "exclude_patterns" d4 in
      d5 <- FilesConfig_getattr "max_files" ;;
      let a5 := dict_get d "max_files" d5 in
      Ok (mkFilesConfigObj a1 a2 a3 a4 a5)
  end.

(** ** The file system and the environment of a scan *)

(** What [os.walk] finds when it opens a directory.  [Listing files dirs]
    gives the names of the entries that are not directories and the
    entries that are, each in the order [os.scandir] reports them.
    [Denied] stands for a directory that [os.walk] does not list: opening
    it raises [OSError] (permission denied, not a directory), which
    [os.walk] swallows since no [onerror] is given, or it is a symbolic
    link, which is not followed. *)
Inductive dirnode : Type :=
| Denied
| Listing (files : list string) (dirs : list (string * dirnode)).

(** The environment of one scan in which every root resolves.
    [expanduser p] is [str(Path(p).expanduser())]; [lookup p] is [None]
    when [Path.exists] is false; [which_fd] tells whether
    [shutil.which("fd")] finds the utility; [subprocess_run argv] is the
    outcome of running [argv] with the 30 second timeout: the return code
    and the decoded standard output, or the exception raised.  The
    exceptions of [expanduser] and [exists] themselves are the matter of
    [host] and of the scans of [Probe] below. *)
Record world : Type := mkWorld {
  expanduser : string -> string;
  lookup : string -> option dirnode;
  which_fd : bool;
  subprocess_run : list string -> pyresult (Z * string)
}.

(** ** The fallback walker *)

(** Control flow of the loops of [_scan_with_python]: [Next] carries
    [all_files] to the next iteration, [Return] leaves the function. *)
Inductive flow : Type :=
| Next (all_files : list string)
| Return (all_files : list string).

Section Descend.

Variable visit : string -> dirnode -> list string -> flow.
Variable keep : string -> bool.

(** The sub-directories [os.walk] enters after a [yield]: those the
    loop body left in [dirs], in order. *)
Fixpoint descend (dirs : list (string * dirnode)) (all_files : list string)
  : flow :=
  match dirs with
  | [] => Next all_files
  | (d, sub) :: rest =>
      if keep d then
        match visit d sub all_files with
        | Return r => Return r
        | Next all_files' => descend rest all_files'
        end
      else descend rest all_files
  end.

End Descend.

Section Walker.

Variable cfg : FilesConfig.

(** The filter of [dirs[:] = [...]]. *)
Definition keep_dir (d : string) : bool :=
  negb (mem d (exclude_patterns cfg)) && negb (startswith dot d).

(** [Path(filename).suffix.lstrip(".")]. *)
Definition ext_of (filename : string) : string :=
  lstrip_dots (suffix filename).

(** The tests a file name passes before it is appended. *)
Definition keep_file (filename : string) : bool :=
  if startswith dot filename then false
  else
    match include_extensions cfg with
    | [] => true
    | _ :: _ => mem (ext_of filename) (include_extensions cfg)
    end.

(** [for filename in files: ...]. *)
Fixpoint visit_files (root : string) (files : list string)
  (all_files : list string) : flow :=
  match files with
  | [] => Next all_files
  | filename :: rest =>
      if keep_file filename then
        let all_files' := all_files ++ [os_path_join root filename] in
        if (Z.of_nat (length all_files') >=? max_files cfg)%Z
        then Return all_files'
        else visit_files root rest all_files'
      else visit_files root rest all_files
  end.

(** [str(root).count(os.sep) - str(path).count(os.sep)]. *)
Definition depth_of (path root : string) : Z :=
  (Z.of_nat (count sep root) - Z.of_nat (count sep path))%Z.

(** [self._config.max_depth > 0 and depth >= self._config.max_depth]. *)
Definition too_deep (path root : string) : bool :=
  (max_depth cfg >? 0)%Z && (depth_of path root >=? max_depth cfg)%Z.

(** The body of [for root, dirs, files in os.walk(path)] together with
    the directories [os.walk] visits afterwards, top down. *)
Fixpoint walk (path root : string) (node : dirnode)
  (all_files : list string) {struct node} : flow :=
  match node with
  | Denied => Next all_files
  | Listing files dirs =>
      if too_deep path root then Next all_files
      else
        match visit_files root files all_files with
        | Return r => Return r
        | Next all_files' =>
            descend (fun d sub => walk path (os_path_join root d) sub)
              keep_dir dirs all_files'
        end
  end.

Variable w : world.

(** [for scan_path in self._config.scan_paths: ...]. *)
Fixpoint python_roots (paths : list string) (all_files : list string)
  : list string :=
  match paths with
  | [] => all_files
  | scan_path :: rest =>
      let path := expanduser w scan_path in
      match lookup w path with
      | None => python_roots rest all_files
      | Some node =>
          match walk path path node all_files with
          | Return r => r
          | Next all_files' => python_roots rest all_files'
          end
      end
  end.

End Walker.

Definition _scan_with_python (config : option FilesConfig) (w : world)
  : pyresult (list string) :=
  match config with
  | None => Ok []
  | Some cfg => Ok (python_roots cfg w (scan_paths cfg) [])
  end.

(** ** The delegate backend *)

Section Delegate.

Variable cfg : FilesConfig.

(** The argument vector built for one root. *)
Definition fd_cmd (path : string) : list string :=
  ["fd"; "--type"; "f"; "--absolute-path"]
  ++ (if (max_depth cfg >? 0)%Z
      then ["--max-depth"; str_of_int (max_depth cfg)] else [])
  ++ flat_map (fun pattern => ["--exclude"; pattern]) (exclude_patterns cfg)
  ++ match include_extensions cfg with
     | [] => []
     | _ :: _ =>
         flat_map (fun ext => ["--extension"; lstrip_dots ext])
           (include_extensions cfg)
     end
  ++ [path].

(** [result.stdout.strip().split("\n")] without the empty pieces. *)
Definition parse_stdout (stdout : string) : list string :=
  filter nonempty (split_lines (strip stdout)).

Variable w : world.

(** The loop over the roots.  An exception of [subprocess.run] is caught
    and goes on to the next root, past the limit check. *)
Fixpoint fd_roots (paths : list string) (all_files : list string)
  : list string :=
  match paths with
  | [] => all_files
  | scan_path :: rest =>
      let path := expanduser w scan_path in
      match lookup w path with
      | None => fd_roots rest all_files
      | Some _ =>
          match subprocess_run w (fd_cmd path) with
          | Raise _ => fd_roots rest all_files
          | Ok (returncode, stdout) =>
              let all_files' :=
                if (returncode =? 0)%Z
                then all_files ++ parse_stdout stdout
                else all_files in
              if (Z.of_nat (length all_files') >=? max_files cfg)%Z
              then slice_to all_files' (max_files cfg)
              else fd_roots rest all_files'
          end
      end
  end.

End Delegate.

Definition _scan_with_fd (config : option FilesConfig) (w : world)
  : pyresult (list string) :=
  match config with
  | None => Ok []
  | Some cfg => Ok (fd_roots cfg w (scan_paths cfg) [])
  end.

(** [_has_fd]. *)
Definition _has_fd (w : world) : bool := which_fd w.

(** [_scan_files]. *)
Definition _scan_files (config : option FilesConfig) (w : world)
  : pyresult (list string) :=
  match config with
  | None => Ok []
  | Some _ =>
      if _has_fd w then _scan_with_fd config w
      else _scan_with_python config w
  end.

(** ** Resolving the roots

    Both loops evaluate [Path(scan_path).expanduser()] and
    [path.exists()] before their [try], so the exceptions of these two
    calls leave the scan.  [expanduser] raises RuntimeError when the
    home directory of the user named after [~] cannot be determined;
    [exists] returns false when [stat] fails with ENOENT, ENOTDIR, EBADF
    or ELOOP and raises every other OSError again, so that a root below a
    directory that may not be searched raises PermissionError. *)

(** The environment of a scan with these failures: [host_expanduser p]
    is [str(Path(p).expanduser())] or the exception raised;
    [host_exists p] is the exception [exists] raises, [None] when it
    returns false, and what [os.walk] finds at the path when it returns
    true. *)
Record host : Type := mkHost {
  host_expanduser : string -> pyresult string;
  host_exists : string -> pyresult (option dirnode);
  host_which_fd : bool;
  host_subprocess_run : list string -> pyresult (Z * string)
}.

(** An environment in which every root resolves, as a host; on it the
    scans of [Probe] are the scans above. *)
Definition host_of (w : world) : host :=
  {| host_expanduser := fun p => Ok (expanduser w p);
     host_exists := fun p => Ok (lookup w p);
     host_which_fd := which_fd w;
     host_subprocess_run := subprocess_run w |}.

(** What a host shows where its two calls return. *)
Definition world_of (h : host) : world :=
  {| expanduser := fun p =>
       match host_expanduser h p with
       | Ok path => path
       | Raise _ => p
       end;
     lookup := fun p =>
       match host_exists h p with
       | Ok found => found
       | Raise _ => None
       end;
     which_fd := host_which_fd h;
     subprocess_run := host_subprocess_run h |}.

(** The root resolves: neither of the two calls raises for it. *)
Definition resolves (h : host) (scan_path : string) : Prop :=
  exists path found,
    host_expanduser h scan_path = Ok path
    /\ host_exists h path = Ok found.

(** The root resolves to a path at which nothing exists. *)
Definition absent (h : host) (scan_path : string) : bool :=
  match host_expanduser h scan_path with
  | Ok path =>
      match host_exists h path with
      | Ok None => true
      | _ => false
      end
  | Raise _ => false
  end.

Module Probe.

Section Roots.

Variable cfg : FilesConfig.
Variable h : host.

(** [for scan_path in self._config.scan_paths: ...] of
    [_scan_with_python]. *)
Fixpoint python_roots (paths : list string) (all_files : list string)
  : pyresult (list string) :=
  match paths with
  | [] => Ok all_files
  | scan_path :: rest =>
      match host_expanduser h scan_path with
      | Raise e => Raise e
      | Ok path =>
          match host_exists h path with
          | Raise e => Raise e
          | Ok None => python_roots rest all_files
          | Ok (Some node) =>
              match walk cfg path path node all_files with
              | Return r => Ok r
              | Next all_files' => python_roots rest all_files'
              end
          end
      end
  end.

(** [for scan_path in self._config.scan_paths: ...] of [_scan_with_fd]. *)
Fixpoint fd_roots (paths : list string) (all_files : list string)
  : pyresult (list string) :=
  match paths with
  | [] => Ok all_files
  | scan_path :: rest =>
      match host_expanduser h scan_path with
      | Raise e => Raise e
      | Ok path =>
          match host_exists h path with
          | Raise e => Raise e
          | Ok None => fd_roots rest all_files
          | Ok (Some _) =>
              match host_subprocess_run h (fd_cmd cfg path) with
              | Raise _ => fd_roots rest all_files
              | Ok (returncode, stdout) =>
                  let all_files' :=
                    if (returncode =? 0)%Z
                    then all_files ++ parse_stdout stdout
                    else all_files in
                  if (Z.of_nat (length all_files') >=? max_files cfg)%Z
                  then Ok (slice_to all_files' (max_files cfg))
                  else fd_roots rest all_files'
              end
          end
      end
  end.

End Roots.

(** [_scan_with_python]. *)
Definition _scan_with_python (config : option FilesConfig) (h : host)
  : pyresult (list string) :=
  match config with
  | None => Ok []
  | Some cfg => python_roots cfg h (scan_paths cfg) []
  end.

(** [_scan_with_fd]. *)
Definition _scan_with_fd (config : option FilesConfig) (h : host)
  : pyresult (list string) :=
  match config with
  | None => Ok []
  | Some cfg => fd_roots cfg h (scan_paths cfg) []
  end.

(** [_scan_files]. *)
Definition _scan_files (config : option FilesConfig) (h : host)
  : pyresult (list string) :=
  match config with
  | None => Ok []
  | Some _ =>
      if host_which_fd h then _scan_with_fd config h
      else _scan_with_python config h
  end.

End Probe.

(** ** What a scan is expected to collect *)

Section Collect.

Variable visit : string -> dirnode -> list string.
Variable keep : string -> bool.

(** The paths found below the kept sub-directories, in order. *)
Fixpoint collect (dirs : list (string * dirnode)) : list string :=
  match dirs with
  | [] => []
  | (d, sub) :: rest =>
      if keep d then visit d sub ++ collect rest else collect rest
  end.

End Collect.

Section Eligible.

Variable cfg : FilesConfig.

(** The paths one directory contributes by itself. *)
Definition dir_files (root : string) (files : list string) : list string :=
  map (os_path_join root) (filter (keep_file cfg) files).

(** Every path the walker would append below [root] if there were no
    cap, in the order of the traversal. *)
Fixpoint eligible (path root : string) (node : dirnode) {struct node}
  : list string :=
  match node with
  | Denied => []
  | Listing files dirs =>
      if too_deep cfg path root then []
      else
        dir_files root files
        ++ collect (fun d sub => eligible path (os_path_join root d) sub)
             (keep_dir cfg) dirs
  end.

Variable w : world.

(** The uncapped contribution of one configured root to the walker. *)
Definition python_root_files (scan_path : string) : list string :=
  let path := expanduser w scan_path in
  match lookup w path with
  | None => []
  | Some node => eligible path path node
  end.

(** The contribution of one configured root to the delegate backend. *)
Definition fd_root_files (scan_path : string) : list string :=
  let path := expanduser w scan_path in
  match lookup w path with
  | None => []
  | Some _ =>
      match subprocess_run w (fd_cmd cfg path) with
      | Ok (returncode, stdout) =>
          if (returncode =? 0)%Z then parse_stdout stdout else []
      | Raise _ => []
      end
  end.

End Eligible.

(** [all_files] extended by [found] under the cap [m]: the loop goes on
    while the list stays below the cap and returns its first [m] elements
    once it does not. *)
Definition capped (m : Z) (all_files found : list string) : flow :=
  if (Z.of_nat (length (all_files ++ found)) <? m)%Z
  then Next (all_files ++ found)
  else Return (firstn (Z.to_nat m) (all_files ++ found)).

(** The same configuration with other roots. *)
Definition with_scan_paths (cfg : FilesConfig) (paths : list string)
  : FilesConfig :=
  {| scan_paths := paths;
     max_depth := max_depth cfg;
     include_extensions := include_extensions cfg;
     exclude_patterns := exclude_patterns cfg;
     max_files := max_files cfg |}.

(** ** Well-formed directory trees *)

(** A directory entry name: not empty and without a separator. *)
Definition name_ok (name : string) : Prop :=
  name <> EmptyString /\ contains sep name = false.

(** [tree_all P node]: [P] holds of every listed directory of [node]. *)
Fixpoint tree_all (P : list string -> list (string * dirnode) -> Prop)
  (node : dirnode) : Prop :=
  match node with
  | Denied => True
  | Listing files dirs =>
      P files dirs
      /\ (fix each (l : list (string * dirnode)) : Prop :=
            match l with
            | [] => True
            | entry :: l' => tree_all P (snd entry) /\ each l'
            end) dirs
  end.

(** In every listed directory the entry names are valid and pairwise
    different. *)
Definition wf_tree : dirnode -> Prop :=
  tree_all (fun files dirs =>
              NoDup (files ++ map fst dirs)
              /\ Forall name_ok (files ++ map fst dirs)).


(** What [os.path.join] puts in front of an entry name of [root]. *)
Definition dir_prefix (root : string) : string :=
  if negb (nonempty root) || endswith sep root then root
  else (root ++ String sep EmptyString)%string.


(** The documented filter, following the words of the specification: an
    entry whose name is an exclusion pattern is excluded, be it a file or
    a directory, and a directory so named is not entered; hidden entries
    are excluded; a non-empty extension list admits the files whose
    extension it holds; with a positive depth bound the files up to that
    many levels below the root are eligible. *)
Fixpoint documented_files (cfg : FilesConfig) (level : nat) (root : string)
  (node : dirnode) {struct node} : list string :=
  match node with
  | Denied => []
  | Listing files dirs =>
      if (max_depth cfg >? 0)%Z && (Z.of_nat level >=? max_depth cfg)%Z
      then []
      else
        map (os_path_join root)
          (filter (fun name =>
                     keep_file cfg name
                     && negb (mem name (exclude_patterns cfg))) files)
        ++ collect
             (fun d sub =>
                documented_files cfg (S level) (os_path_join root d) sub)
             (keep_dir cfg) dirs
  end.

(** ** The contract of the utility

    The utility is no code of the plugin.  What it lists is read off the
    argument vector it is given, following the words of the
    specification: regular files only, as absolute paths; entries whose
    name starts with a dot are passed over; every [--exclude] names an
    entry, file or directory, that is left out, a directory with all
    that lies below it; with [--extension] arguments a file is listed
    when its name ends in a dot and one of them; with [--max-depth N]
    the files up to [N] levels below the path are listed. *)















(** ** Concrete scans

    Small environments and configurations on which the scan is run in
    the examples below. *)

Definition lf : string := String newline EmptyString.

(** Two roots [/srv/a] and [/srv/b]; [/srv/missing] does not exist.  The
    utility answers for each of the two with the files below it. *)
Definition srv_world : world :=
  {| expanduser := fun p => p;
     lookup := fun p =>
       if String.eqb p "/srv/a" then
         Some (Listing ["one.txt"; "two.md"]
                 [("locked", Denied); ("sub", Listing ["three.txt"] [])])
       else if String.eqb p "/srv/b" then Some (Listing ["four.txt"] [])
       else None;
     which_fd := false;
     subprocess_run := fun argv =>
       if String.eqb (last argv "") "/srv/a" then
         Ok (0%Z, ("/srv/a/one.txt" ++ lf ++ "/srv/a/two.md" ++ lf
                   ++ "/srv/a/sub/three.txt" ++ lf)%string)
       else if String.eqb (last argv "") "/srv/b" then
         Ok (0%Z, ("/srv/b/four.txt" ++ lf)%string)
       else Ok (1%Z, "") |}.

(** The same environment with the utility installed. *)
Definition srv_world_fd : world :=
  {| expanduser := expanduser srv_world;
     lookup := lookup srv_world;
     which_fd := true;
     subprocess_run := subprocess_run srv_world |}.

Definition srv_config : FilesConfig :=
  {| scan_paths := ["/srv/a"; "/srv/missing"; "/srv/b"];
     max_depth := 5;
     include_extensions := [];
     exclude_patterns := exclude_patterns FilesConfig_default;
     max_files := 3 |}.

(** One root listed twice. *)
Definition twice_config : FilesConfig :=
  with_scan_paths FilesConfig_default ["/srv/b"; "/srv/b"].

(** A project directory holding a regular file named [venv] next to a
    directory [node_modules]; the utility, given [--exclude venv],
    reports neither. *)
Definition proj_tree : dirnode :=
  Listing ["venv"; "main.py"] [("node_modules", Listing ["x.js"] [])].

Definition proj_world : world :=
  {| expanduser := fun p => p;
     lookup := fun p => if String.eqb p "/proj" then Some proj_tree else None;
     which_fd := true;
     subprocess_run := fun argv =>
       if String.eqb (last argv "") "/proj"
       then Ok (0%Z, ("/proj/main.py" ++ lf)%string)
       else Ok (1%Z, "") |}.

Definition proj_config : FilesConfig :=
  with_scan_paths FilesConfig_default ["/proj"].

(** The root of the file system: a directory [usr] holding a file [x]. *)
Definition slash_tree : dirnode := Listing [] [("usr", Listing ["x"] [])].

Definition slash_world : world :=
  {| expanduser := fun p => p;
     lookup := fun p => if String.eqb p "/" then Some slash_tree else None;
     which_fd := false;
     subprocess_run := fun _ => Raise (OSError "fd") |}.

Definition slash_config : FilesConfig :=
  {| scan_paths := ["/"];
     max_depth := 1;
     include_extensions := [];
     exclude_patterns := exclude_patterns FilesConfig_default;
     max_files := 10000 |}.

(** The three roots of [srv_world] under the default cap. *)
Definition wide_config : FilesConfig :=
  with_scan_paths FilesConfig_default ["/srv/a"; "/srv/missing"; "/srv/b"].




(** The file system of [srv_world] with a directory [/locked] that may
    not be searched, so that [exists] raises for what lies below it, and
    without a user named [ghost], so that [expanduser] raises for
    [~ghost]; the utility fails on [/srv/a]. *)
Definition locked_host : host :=
  {| host_expanduser := fun p =>
       if String.eqb p "~ghost/notes"
       then Raise (RuntimeError "Could not determine home directory.")
       else Ok p;
     host_exists := fun p =>
       if String.eqb p "/locked/docs" then Raise (OSError "PermissionError")
       else if String.eqb p "/locked/missing"
       then Raise (OSError "PermissionError")
       else Ok (lookup srv_world p);
     host_which_fd := false;
     host_subprocess_run := fun argv =>
       if String.eqb (last argv "") "/srv/a" then Ok (2%Z, "")
       else subprocess_run srv_world argv |}.

(** The same host with the utility installed. *)
Definition locked_host_fd : host :=
  {| host_expanduser := host_expanduser locked_host;
     host_exists := host_exists locked_host;
     host_which_fd := true;
     host_subprocess_run := host_subprocess_run locked_host |}.

(** The roots of [srv_world] and, between them, a root below [/locked]. *)
Definition locked_config : FilesConfig :=
  with_scan_paths FilesConfig_default ["/srv/a"; "/locked/docs"; "/srv/b"].

(** A root in the home directory of a user that does not exist, and a
    root that does not exist below [/locked]. *)
Definition ghost_config : FilesConfig :=
  with_scan_paths FilesConfig_default ["~ghost/notes"; "/srv/b"].

Definition below_locked_config : FilesConfig :=
  with_scan_paths FilesConfig_default ["/locked/missing"; "/srv/b"].

(** A root that does not exist before one that does. *)
Definition missing_config : FilesConfig :=
  with_scan_paths FilesConfig_default ["/srv/missing"; "/srv/b"].





(** A stored record that sets the depth and nothing else. *)
Definition depth_only_record : pydict := [("max_depth", VInt 3)].

(** Two existing roots and a cap smaller than what they hold. *)
Definition two_roots_config : FilesConfig :=
  {| scan_paths := ["/srv/a"; "/srv/b"];
     max_depth := 5;
     include_extensions := [];
     exclude_patterns := exclude_patterns FilesConfig_default;
     max_files := 2 |}.

(** ** Further notions about a scan *)

(** The tree without what the walker passes over: hidden files, hidden
    directories and directories named by an exclusion pattern, with all
    that lies below them. *)
Fixpoint prune (cfg : FilesConfig) (node : dirnode) : dirnode :=
  match node with
  | Denied => Denied
  | Listing files dirs =>
      Listing (filter (fun name => negb (startswith dot name)) files)
        ((fix kept (l : list (string * dirnode)) : list (string * dirnode) :=
            match l with
            | [] => []
            | (d, sub) :: l' =>
                if keep_dir cfg d then (d, prune cfg sub) :: kept l'
                else kept l'
            end) dirs)
  end.

(** The environment in which every root shows its pruned tree. *)
Definition prune_world (cfg : FilesConfig) (w : world) : world :=
  {| expanduser := expanduser w;
     lookup := fun p => option_map (prune cfg) (lookup w p);
     which_fd := which_fd w;
     subprocess_run := subprocess_run w |}.

(** The list a loop holds when it stops or goes on. *)
Definition flow_list (f : flow) : list string :=
  match f with
  | Next all_files => all_files
  | Return all_files => all_files
  end.

(** What the walker does with a non-positive cap on an empty list: it
    returns with the first path it appends. *)
Definition first_only (found : list string) : flow :=
  match found with
  | [] => Next []
  | p :: _ => Return [p]
  end.

(** The paths read from the first root that exists and whose invocation
    does not raise. *)
Fixpoint first_completed (cfg : FilesConfig) (w : world)
  (paths : list string) : option (list string) :=
  match paths with
  | [] => None
  | scan_path :: rest =>
      match lookup w (expanduser w scan_path) with
      | None => first_completed cfg w rest
      | Some _ =>
          match subprocess_run w (fd_cmd cfg (expanduser w scan_path)) with
          | Raise _ => first_completed cfg w rest
          | Ok (returncode, stdout) =>
              Some (if (returncode =? 0)%Z then parse_stdout stdout else [])
          end
      end
  end.

(** The same configuration with another depth bound. *)
Definition with_max_depth (cfg : FilesConfig) (d : Z) : FilesConfig :=
  {| scan_paths := scan_paths cfg;
     max_depth := d;
     include_extensions := include_extensions cfg;
     exclude_patterns := exclude_patterns cfg;
     max_files := max_files cfg |}.

(** The same configuration with another cap. *)
Definition with_max_files (cfg : FilesConfig) (m : Z) : FilesConfig :=
  {| scan_paths := scan_paths cfg;
     max_depth := max_depth cfg;
     include_extensions := include_extensions cfg;
     exclude_patterns := exclude_patterns cfg;
     max_files := m |}.

(** The output of a utility that prints each path on a line of its own. *)
Fixpoint unlines (paths : list string) : string :=
  match paths with
  | [] => EmptyString
  | p :: rest => (p ++ String newline (unlines rest))%string
  end.

(** Whether the last character of a string is white space. *)
Fixpoint ends_with_space (s : string) : bool :=
  match s with
  | EmptyString => false
  | String a EmptyString => isspace a
  | String _ s' => ends_with_space s'
  end.

(** [String newline EmptyString.join(paths)]: the paths with a line feed
    between them. *)
Fixpoint join_lines (paths : list string) : string :=
  match paths with
  | [] => EmptyString
  | p :: rest =>
      match rest with
      | [] => p
      | _ :: _ => (p ++ String newline (join_lines rest))%string
      end
  end.

(** An absolute path that fits on a line. *)
Definition path_line (p : string) : Prop :=
  startswith sep p = true /\ contains newline p = false.

(** ** Paths as [pathlib] reads them *)

Module PyPath.

(** [s.split(c)] for a one-character separator. *)
Fixpoint split_on (c : ascii) (s : string) : list string :=
  match s with
  | EmptyString => [EmptyString]
  | String a s' =>
      if Ascii.eqb a c then EmptyString :: split_on c s'
      else
        match split_on c s' with
        | piece :: rest => String a piece :: rest
        | [] => [String a EmptyString]
        end
  end.

(** The number of separators a string starts with. *)
Fixpoint leading_seps (s : string) : nat :=
  match s with
  | String a s' => if Ascii.eqb a sep then S (leading_seps s') else 0
  | EmptyString => 0
  end.

(** The root of a POSIX path: two leading separators are kept, any other
    number of them is one. *)
Definition path_root (s : string) : string :=
  match leading_seps s with
  | 0 => EmptyString
  | 2 => "//"
  | _ => "/"
  end.

(** The components of a POSIX path: the pieces between separators that
    are neither empty nor a single dot. *)
Definition path_parts (s : string) : list string :=
  filter (fun piece => nonempty piece && negb (String.eqb piece "."))
    (split_on sep s).

(** [sep.join(parts)]. *)
Fixpoint join_sep (parts : list string) : string :=
  match parts with
  | [] => EmptyString
  | piece :: rest =>
      match rest with
      | [] => piece
      | _ :: _ => (piece ++ String sep (join_sep rest))%string
      end
  end.

(** [str] of the path with the given root and components. *)
Definition path_str (root : string) (parts : list string) : string :=
  match root, parts with
  | EmptyString, [] => "."
  | _, _ => (root ++ join_sep parts)%string
  end.

(** [Path(s).name]: the last component, empty when there is none. *)
Definition path_name (s : string) : string :=
  last (path_parts s) EmptyString.

(** [str(Path(s).parent)]: the path without its last component. *)
Definition path_parent (s : string) : string :=
  path_str (path_root s) (removelast (path_parts s)).

(** Whether [s] starts with [prefix]. *)
Fixpoint has_prefix (prefix s : string) : bool :=
  match prefix, s with
  | EmptyString, _ => true
  | String a prefix', String b s' => Ascii.eqb a b && has_prefix prefix' s'
  | String _ _, EmptyString => false
  end.

(** [s.replace(old, new)] for a non-empty [old]: the occurrences of
    [old] are replaced from left to right without overlap.  [skip]
    counts the characters of a replaced occurrence still to pass. *)
Fixpoint replace_from (old new : string) (skip : nat) (s : string)
  : string :=
  match s with
  | EmptyString => EmptyString
  | String a s' =>
      match skip with
      | S skip' => replace_from old new skip' s'
      | O =>
          if has_prefix old s
          then (new ++ replace_from old new (String.length old - 1) s')%string
          else String a (replace_from old new 0 s')
      end
  end.

(** [s.replace(old, new)]; an empty [old] matches before every character
    and at the end. *)
Definition str_replace (old new s : string) : string :=
  match old with
  | EmptyString =>
      ((fix between (t : string) : string :=
          match t with
          | EmptyString => EmptyString
          | String a t' => (new ++ String a (between t'))%string
          end) s ++ new)%string
  | String _ _ => replace_from old new 0 s
  end.

End PyPath.

Import PyPath.

(** ** Menu items *)

(** The item types of the host the plugins use. *)
Inductive ItemType : Type :=
| ACTION
| SUBMENU.

(** The values the plugins put into the metadata of an item. *)
Inductive metaval : Type :=
| MStr (s : string)
| MBool (b : bool)
| MNone.

(** The menu item of the host, whose class is not part of these sources:
    a record of the keyword arguments the plugins pass to its
    constructor, an argument left out being [None]. *)
Record MenuItem : Type := mkMenuItem {
  item_id : string;
  item_title : string;
  item_type : ItemType;
  item_plugin : option string;
  item_badge : option string;
  item_icon : option string;
  item_metadata : option (list (string * metaval))
}.

(** The item [_get_file_items] builds for one path; [home] is
    [str(Path.home())]. *)
Definition file_item (home : string) (file_path : string) : MenuItem :=
  {| item_id := ("files:" ++ file_path)%string;
     item_title := path_name file_path;
     item_type := ACTION;
     item_plugin := Some "files";
     item_badge := Some (str_replace home "~" (path_parent file_path));
     item_icon := None;
     item_metadata := Some [("path", MStr file_path)] |}.

(** [_get_file_items]: the configuration the plugin holds afterwards,
    and the items. *)
Definition _get_file_items (home : string) (config : option FilesConfig)
  (w : world) : option FilesConfig * pyresult (list MenuItem) :=
  let config' :=
    match config with
    | None => Some FilesConfig_default
    | Some _ => config
    end in
  (config', files <- _scan_files config' w ;; Ok (map (file_item home) files)).

(** A directory joined with a valid, visible entry name. *)
Definition named_path (p : string) : Prop :=
  exists dir name,
    p = os_path_join dir name /\ name_ok name /\ startswith dot name = false.

(** A directory joined with the name of an entry that is visible and,
    when the extension list is not empty, has an extension of the list. *)
Definition kept_entry (cfg : FilesConfig) (p : string) : Prop :=
  exists dir name,
    p = os_path_join dir name
    /\ name_ok name
    /\ startswith dot name = false
    /\ (include_extensions cfg = []
        \/ In (ext_of name) (include_extensions cfg)).

(** A path whose own name, [Path(p).name], is visible and, when the
    extension list is not empty, has an extension of the list. *)
Definition kept_path (cfg : FilesConfig) (p : string) : Prop :=
  startswith dot (path_name p) = false
  /\ (include_extensions cfg = []
      \/ In (ext_of (path_name p)) (include_extensions cfg)).

(** The roots of [srv_world] searched for text files. *)
Definition txt_config : FilesConfig :=
  {| scan_paths := ["/srv/a"; "/srv/b"];
     max_depth := 5;
     include_extensions := ["txt"];
     exclude_patterns := exclude_patterns FilesConfig_default;
     max_files := 10000 |}.


(** ** The menus of the files plugin *)

(** The calls of the plugin that a session records: [ctx.menu],
    [ctx.notify] and [subprocess.Popen].  The runs of the utility inside
    a scan, made with [subprocess.run], are no events of the log. *)
Inductive event : Type :=
| Menu (prompt : string) (items : list MenuItem)
| Notify (message : string)
| Popen (argv : list string).

(** A run of the plugin: the configuration it holds, the selections the
    user will make at the menus to come ([None] when the user leaves a
    menu), and what it has done so far. *)
Record session : Type := mkSession {
  held : option FilesConfig;
  answers : list (option MenuItem);
  log : list event
}.

(** How a call ends: it returns, an exception leaves it, it waits at a
    menu for a selection the script does not hold, or the model ran out
    of steps. *)
Inductive status : Type :=
| Returned
| Raised (e : exn)
| Waiting
| OutOfFuel.

Definition record (e : event) (s : session) : session :=
  {| held := held s; answers := answers s; log := log s ++ [e] |}.

Definition hold (config : option FilesConfig) (s : session) : session :=
  {| held := config; answers := answers s; log := log s |}.

(** [ctx.menu(items, prompt)]: the menu is shown and the next selection
    of the script is the answer. *)
Definition ctx_menu (items : list MenuItem) (prompt : string) (s : session)
  : option (option MenuItem * session) :=
  match answers s with
  | [] => None
  | selected :: rest =>
      Some (selected,
            {| held := held s; answers := rest;
               log := log s ++ [Menu prompt items] |})
  end.

(** [d.get(key)] on the metadata of an item. *)
Fixpoint metadata_get (d : list (string * metaval)) (key : string)
  : option metaval :=
  match d with
  | [] => None
  | (k, v) :: d' => if String.eqb k key then Some v else metadata_get d' key
  end.

Section FilesMenus.

(** The environment: the file system and the utility, the home
    directory, and whether starting a process succeeds. *)
Variable w : world.
Variable home : string.
Variable popen_starts : list string -> bool.

(** [_open_file]: an exception of [Popen] is swallowed.  A path that is
    not a string makes [Popen] raise. *)
Definition _open_file (file_path : metaval) (s : session) : session :=
  match file_path with
  | MStr p =>
      if popen_starts ["xdg-open"; p] then record (Popen ["xdg-open"; p]) s
      else s
  | _ => s
  end.

(** The items [_edit_paths] shows. *)
Definition path_items (cfg : FilesConfig) : list MenuItem :=
  map (fun scan_path =>
         {| item_id := ("files:path:" ++ scan_path)%string;
            item_title := scan_path;
            item_type := ACTION;
            item_plugin := None;
            item_badge :=
              match lookup w (expanduser w scan_path) with
              | Some _ => None
              | None => Some "not found"
              end;
            item_icon := None;
            item_metadata := None |}) (scan_paths cfg)
  ++ [{| item_id := "files:path:add";
         item_title := "Add Path...";
         item_type := ACTION;
         item_plugin := None;
         item_badge := None;
         item_icon := None;
         item_metadata := None |}].

(** The loop of [_edit_paths], the plugin holding [cfg]; every turn
    takes one step of [fuel]. *)
Fixpoint edit_paths_loop (fuel : nat) (cfg : FilesConfig) (s : session)
  : status * session :=
  match fuel with
  | O => (OutOfFuel, s)
  | S fuel' =>
      match ctx_menu (path_items cfg) "Scan Paths" s with
      | None => (Waiting, record (Menu "Scan Paths" (path_items cfg)) s)
      | Some (None, s1) => (Returned, s1)
      | Some (Some selected, s1) =>
          if String.eqb (item_id selected) "files:path:add" then
            edit_paths_loop fuel' cfg
              (record (Notify "Add path not yet implemented") s1)
          else
            edit_paths_loop fuel' cfg
              (record
                 (Notify
                    ("Path: "
                     ++ str_replace "files:path:" "" (item_id selected)))
                 s1)
      end
  end.

(** [_edit_paths]. *)
Definition _edit_paths (fuel : nat) (s : session) : status * session :=
  match held s with
  | None => (Returned, s)
  | Some cfg => edit_paths_loop fuel cfg s
  end.

(** The items [_show_settings] shows. *)
Definition settings_items (cfg : FilesConfig) : list MenuItem :=
  [{| item_id := "files:settings:paths";
      item_title := "Scan Paths";
      item_type := SUBMENU;
      item_plugin := None;
      item_badge :=
        Some (str_of_int (Z.of_nat (length (scan_paths cfg))));
      item_icon := None;
      item_metadata := None |};
   {| item_id := "files:settings:depth";
      item_title := "Max Depth";
      item_type := ACTION;
      item_plugin := None;
      item_badge := Some (str_of_int (max_depth cfg));
      item_icon := None;
      item_metadata := None |};
   {| item_id := "files:settings:rescan";
      item_title := "Rescan Files";
      item_type := ACTION;
      item_plugin := None;
      item_badge := None;
      item_icon := None;
      item_metadata := None |}].

(** The loop of [_show_settings], the plugin holding [cfg]. *)
Fixpoint settings_loop (fuel : nat) (cfg : FilesConfig) (s : session)
  : status * session :=
  match fuel with
  | O => (OutOfFuel, s)
  | S fuel' =>
      match ctx_menu (settings_items cfg) "Files Settings" s with
      | None =>
          (Waiting, record (Menu "Files Settings" (settings_items cfg)) s)
      | Some (None, s1) => (Returned, s1)
      | Some (Some selected, s1) =>
          if String.eqb (item_id selected) "files:settings:paths" then
            match _edit_paths fuel' s1 with
            | (Returned, s2) => settings_loop fuel' cfg s2
            | stopped => stopped
            end
          else if String.eqb (item_id selected) "files:settings:depth" then
            settings_loop fuel' cfg
              (record (Notify ("Max depth: " ++ str_of_int (max_depth cfg)))
                 s1)
          else if String.eqb (item_id selected) "files:settings:rescan" then
            settings_loop fuel' cfg
              (record (Notify "Rescan not yet implemented") s1)
          else settings_loop fuel' cfg s1
      end
  end.

(** [_show_settings]. *)
Definition _show_settings (fuel : nat) (s : session) : status * session :=
  match held s with
  | None =>
      settings_loop fuel FilesConfig_default
        (hold (Some FilesConfig_default) s)
  | Some cfg => settings_loop fuel cfg s
  end.

Definition settings_item : MenuItem :=
  {| item_id := "files:settings";
     item_title := "Settings";
     item_type := SUBMENU;
     item_plugin := Some "files";
     item_badge := None;
     item_icon := None;
     item_metadata := None |}.

(** The menu [_show_files_menu] shows over the files found. *)
Definition files_menu (found : list MenuItem) : list MenuItem :=
  found ++ [settings_item].

(** [_show_files_menu]; an exception of [_get_file_items] leaves the
    call.  The scan is the one of an environment in which every root
    resolves. *)
Fixpoint _show_files_menu (fuel : nat) (s : session) : status * session :=
  match fuel with
  | O => (OutOfFuel, s)
  | S fuel' =>
      let (config, scanned) := _get_file_items home (held s) w in
      let s0 := hold config s in
      match scanned with
      | Raise e => (Raised e, s0)
      | Ok found =>
          match ctx_menu (files_menu found) "Files" s0 with
          | None => (Waiting, record (Menu "Files" (files_menu found)) s0)
          | Some (None, s1) => (Returned, s1)
          | Some (Some selected, s1) =>
              if String.eqb (item_id selected) "files:settings" then
                match _show_settings fuel' s1 with
                | (Returned, s2) => _show_files_menu fuel' s2
                | stopped => stopped
                end
              else
                match item_metadata selected with
                | Some (entry :: entries) =>
                    match metadata_get (entry :: entries) "path" with
                    | Some file_path => (Returned, _open_file file_path s1)
                    | None => _show_files_menu fuel' s1
                    end
                | _ => _show_files_menu fuel' s1
                end
          end
      end
  end.

(** [run]. *)
Definition run (fuel : nat) (action : string) (s : session)
  : status * session :=
  if String.eqb action "settings" then _show_settings fuel s
  else if nonempty action then (Returned, _open_file (MStr action) s)
  else _show_files_menu fuel s.

End FilesMenus.

(** The number of calls of [subprocess.Popen] a log records. *)
Definition started (l : list event) : nat :=
  length (filter (fun e => match e with Popen _ => true | _ => false end) l).

(** Events other than calls of [subprocess.Popen]. *)
Definition silent (events : list event) : Prop :=
  Forall (fun e => match e with Popen _ => False | _ => True end) events.

(** [s'] continues [s]: the plugin holds the same configuration, some
    answers of the script were used in order, and the log grew by events
    that start no process. *)
Definition continues (s s' : session) : Prop :=
  held s' = held s
  /\ (exists used, answers s = used ++ answers s')
  /\ (exists more, log s' = log s ++ more /\ silent more).

(** The configuration the plugin holds once it needed one. *)
Definition effective (config : option FilesConfig) : FilesConfig :=
  match config with
  | Some cfg => cfg
  | None => FilesConfig_default
  end.

(** How a call is paced: a step of fuel for every answer of the script
    and one more suffice, no exception leaves the call, and it waits only
    when the script is used up. *)
Definition paced (fuel : nat) (s : session) (r : status * session) : Prop :=
  (length (answers s) < fuel -> fst r <> OutOfFuel)
  /\ (forall e, fst r <> Raised e)
  /\ (fst r = Waiting -> answers (snd r) = []).

(** What holds of a call that starts no process. *)
Definition quiet_call (fuel : nat) (s : session) (r : status * session)
  : Prop :=
  continues s (snd r) /\ paced fuel s r.

(** A call that returned right after it started [xdg-open] on [p]. *)
Definition opened (s : session) (r : status * session) (p : string) : Prop :=
  exists s1,
    continues s s1
    /\ snd r = record (Popen ["xdg-open"; p]) s1
    /\ fst r = Returned.

(** The session at the first menu of a call: as it was, or holding the
    configuration the call settled on. *)
Definition begun (s s0 : session) : Prop :=
  s0 = s \/ s0 = hold (Some (effective (held s))) s.

(** What holds of a call of the files menu. *)
Definition menu_call (fuel : nat) (s : session) (r : status * session)
  : Prop :=
  (continues s (snd r) \/ exists p, opened s r p) /\ paced fuel s r.

(** A session over the served tree: the user opens the settings, leaves
    them, and picks a file. *)
Definition srv_session : session :=
  {| held := None;
     answers :=
       [Some settings_item; Some (hd settings_item
                                    (settings_items srv_config));
        None; Some (file_item "/home/u" "/srv/a/two.md"); None];
     log := [] |}.

(** A session that starts at the pick of a file. *)
Definition pick_session : session :=
  {| held := Some srv_config;
     answers := [Some (file_item "/home/u" "/srv/a/two.md"); None];
     log := [] |}.

(** ** The applications plugin

    A shallow embedding of [plugins/apps/__init__.py]. *)

Module Apps.

Definition percent : ascii := "%"%char.

(** The letters of the class [[fFuUdDnNickvm]]. *)
Definition field_code_letter (c : ascii) : bool :=
  existsb (Ascii.eqb c)
    ["f"; "F"; "u"; "U"; "d"; "D"; "n"; "N"; "i"; "c"; "k"; "v"; "m"]%char.

(** [re.sub(r"%[fFuUdDnNickvm]", "", s)]: matches are found from left to
    right and do not overlap. *)
Fixpoint drop_field_codes (s : string) : string :=
  match s with
  | EmptyString => EmptyString
  | String a s' =>
      if Ascii.eqb a percent then
        match s' with
        | String b s'' =>
            if field_code_letter b then drop_field_codes s''
            else String a (drop_field_codes s')
        | EmptyString => String a EmptyString
        end
      else String a (drop_field_codes s')
  end.

(** [_clean_exec]. *)
Definition _clean_exec (exec_cmd : string) : string :=
  strip (drop_field_codes exec_cmd).

(** [c.lower()] for a code point below 256. *)
Definition lower_char (c : ascii) : ascii :=
  let n := nat_of_ascii c in
  if (((65 <=? n) && (n <=? 90)) || ((192 <=? n) && (n <=? 214))
      || ((216 <=? n) && (n <=? 222)))%nat
  then ascii_of_nat (n + 32) else c.

(** [s.lower()]. *)
Fixpoint str_lower (s : string) : string :=
  match s with
  | EmptyString => EmptyString
  | String a s' => String (lower_char a) (str_lower s')
  end.

(** [s.replace(a, b)] for one-character strings. *)
Fixpoint replace_char (a b : ascii) (s : string) : string :=
  match s with
  | EmptyString => EmptyString
  | String c s' =>
      String (if Ascii.eqb c a then b else c) (replace_char a b s')
  end.

(** [DesktopEntry]. *)
Record DesktopEntry : Type := mkDesktopEntry {
  name : string;
  exec_cmd : string;
  icon : option string;
  comment : option string;
  terminal : bool;
  path : option string
}.

(** The [Desktop Entry] section of a parsed file: the value of an
    option, looked up under its lower-cased name as [ConfigParser] stores
    it. *)
Definition section : Type := string -> option string.

(** [section.get(key, fallback)]. *)
Definition section_get (sec : section) (key : string)
  (fallback : option string) : option string :=
  match sec (str_lower key) with
  | Some v => Some v
  | None => fallback
  end.

(** Whether a value that may be [None] is a non-empty string. *)
Definition truthy (v : option string) : bool :=
  match v with
  | Some s => nonempty s
  | None => false
  end.

(** [_parse_desktop_file].  [parsed] is what reading the file gives: an
    exception, no [Desktop Entry] section, or that section. *)
Definition _parse_desktop_file (file : string)
  (parsed : pyresult (option section)) : option DesktopEntry :=
  match parsed with
  | Raise _ => None
  | Ok None => None
  | Ok (Some sec) =>
      let is_true (v : option string) :=
        match v with
        | Some s => String.eqb (str_lower s) "true"
        | None => false
        end in
      if is_true (section_get sec "NoDisplay" (Some "false")) then None
      else if is_true (section_get sec "Hidden" (Some "false")) then None
      else
        match section_get sec "Name" None, section_get sec "Exec" None with
        | Some n, Some e =>
            if nonempty n && nonempty e then
              Some {| name := n;
                      exec_cmd := e;
                      icon := section_get sec "Icon" None;
                      comment := section_get sec "Comment" None;
                      terminal :=
                        is_true (section_get sec "Terminal" (Some "false"));
                      path := Some file |}
            else None
        | _, _ => None
        end
  end.

(** The item [index] builds for one entry. *)
Definition app_item (entry : DesktopEntry) : MenuItem :=
  {| item_id :=
       ("apps:" ++ replace_char " " "_" (str_lower (name entry)))%string;
     item_title := name entry;
     item_type := ACTION;
     item_plugin := Some "apps";
     item_badge := None;
     item_icon := icon entry;
     item_metadata :=
       Some [("exec", MStr (exec_cmd entry));
             ("terminal", MBool (terminal entry));
             ("comment",
              match comment entry with
              | Some c => MStr c
              | None => MNone
              end)] |}.

(** The loop of [index] over the scanned entries, with the names seen so
    far and the items built so far. *)
Fixpoint index_loop (entries : list DesktopEntry) (seen_names : list string)
  (items : list MenuItem) : list MenuItem :=
  match entries with
  | [] => items
  | entry :: rest =>
      if mem (name entry) seen_names then index_loop rest seen_names items
      else
        index_loop rest (name entry :: seen_names) (items ++ [app_item entry])
  end.

Section Sort.

Variable A : Type.
Variable key : A -> string.

(** Insertion before the first element whose key is not smaller. *)
Fixpoint insert_by (x : A) (l : list A) : list A :=
  match l with
  | [] => [x]
  | y :: l' =>
      if String.leb (key x) (key y) then x :: l else y :: insert_by x l'
  end.

(** [l.sort(key=key)]: the stable sort of [l] by the code-point order of
    the keys, computed by insertion from the right. *)
Definition sort_by (l : list A) : list A := fold_right insert_by [] l.

End Sort.

Arguments insert_by {A} key x l.
Arguments sort_by {A} key l.

(** [index], given what [_scan_desktop_files] returns. *)
Definition index (entries : list DesktopEntry) : list MenuItem :=
  sort_by (fun item => str_lower (item_title item))
    (index_loop entries [] []).

(** What starting processes depends on: [shutil.which], [shlex.split]
    and [subprocess.Popen], the last two with the exception they may
    raise. *)
Record launcher : Type := mkLauncher {
  which : string -> bool;
  shlex_split : string -> pyresult (list string);
  popen : list string -> pyresult unit
}.

(** [_command_exists]. *)
Definition _command_exists (l : launcher) (cmd : string) : bool := which l cmd.

Definition terminals : list string :=
  ["kitty"; "alacritty"; "gnome-terminal"; "xterm"].

(** The loop over the terminal emulators: the argument vector handed to
    [Popen] for the first one installed, if any. *)
Fixpoint first_terminal (l : launcher) (cmd : string) (terms : list string)
  : option (list string) :=
  match terms with
  | [] => None
  | term :: rest =>
      if _command_exists l term then Some [term; "-e"; cmd]
      else first_terminal l cmd rest
  end.

(** [_execute]: the argument vector of the process started, [None] when
    an exception was raised and swallowed. *)
Definition _execute (l : launcher) (exec_cmd : string) (terminal : bool)
  : option (list string) :=
  let cmd := _clean_exec exec_cmd in
  let direct :=
    argv <- shlex_split l cmd ;; _ <- popen l argv ;; Ok argv in
  let attempt :=
    if terminal then
      match first_terminal l cmd terminals with
      | Some argv => _ <- popen l argv ;; Ok argv
      | None => direct
      end
    else direct in
  match attempt with
  | Ok argv => Some argv
  | Raise _ => None
  end.

(** Whether a field code, a percent sign followed by one of the letters,
    occurs in a string. *)
Fixpoint has_field_code (s : string) : bool :=
  match s with
  | EmptyString => false
  | String a s' =>
      (Ascii.eqb a percent && match s' with
                              | String b _ => field_code_letter b
                              | EmptyString => false
                              end)
      || has_field_code s'
  end.

(** Whether two percent signs in a row occur in a string. *)
Fixpoint has_double_percent (s : string) : bool :=
  match s with
  | EmptyString => false
  | String a s' =>
      (Ascii.eqb a percent && startswith percent s')
      || has_double_percent s'
  end.

(** The entries that bear a name for the first time, [seen] holding the
    names met before. *)
Fixpoint first_by_name (seen : list string) (entries : list DesktopEntry)
  : list DesktopEntry :=
  match entries with
  | [] => []
  | entry :: rest =>
      if mem (name entry) seen then first_by_name seen rest
      else entry :: first_by_name (name entry :: seen) rest
  end.

(** The order of the menu: by lower-cased title. *)
Definition title_le (a b : MenuItem) : Prop :=
  String.leb (str_lower (item_title a)) (str_lower (item_title b)) = true.

(** The truth value of a metadata value. *)
Definition truthy_val (v : metaval) : bool :=
  match v with
  | MStr s => nonempty s
  | MBool b => b
  | MNone => false
  end.

(** [d.get(key, default)] on the metadata of an item. *)
Definition metadata_get_or (d : list (string * metaval)) (key : string)
  (default : metaval) : metaval :=
  match metadata_get d key with
  | Some v => v
  | None => default
  end.

(** What a launch comes to: a process started, none (nothing to launch,
    or an exception swallowed), or the TypeError of [re.sub], raised
    outside the [try] of [_execute] on a command that is not a string. *)
Inductive launch : Type :=
| Started (argv : list string)
| NotStarted
| TypeError.

Definition launch_of (started : option (list string)) : launch :=
  match started with
  | Some argv => Started argv
  | None => NotStarted
  end.

(** [_execute] on the values a metadata dict holds. *)
Definition execute_val (l : launcher) (exec_cmd terminal : metaval)
  : launch :=
  match exec_cmd with
  | MStr e => launch_of (_execute l e (truthy_val terminal))
  | _ => TypeError
  end.

(** [_launch_app], with [get_item] the lookup of the host's database. *)
Definition _launch_app (l : launcher) (get_item : string -> option MenuItem)
  (app_id : string) : launch :=
  let full_id :=
    if has_prefix "apps:" app_id then app_id
    else ("apps:" ++ app_id)%string in
  match get_item full_id with
  | None => NotStarted
  | Some item =>
      match item_metadata item with
      | None => NotStarted
      | Some d =>
          let exec_cmd := metadata_get_or d "exec" (MStr "") in
          let terminal := metadata_get_or d "terminal" (MBool false) in
          if truthy_val exec_cmd then execute_val l exec_cmd terminal
          else NotStarted
      end
  end.

(** [run], given what [_scan_desktop_files] returns and what the user
    selects in a menu: the menu shown, if one is, and the launch. *)
Definition run (l : launcher) (get_item : string -> option MenuItem)
  (menu : list MenuItem -> option MenuItem) (entries : list DesktopEntry)
  (action : string) : option (list MenuItem) * launch :=
  if nonempty action then (None, _launch_app l get_item action)
  else
    let items := index entries in
    (Some items,
     match menu items with
     | None => NotStarted
     | Some selected =>
         match item_metadata selected with
         | Some (entry :: d) =>
             match metadata_get (entry :: d) "exec" with
             | Some exec_cmd =>
                 execute_val l exec_cmd
                   (metadata_get_or (entry :: d) "terminal" (MBool false))
             | None => NotStarted
             end
         | _ => NotStarted
         end
     end).

(** [str(Path(p) / child)] for a [child] of one plain component. *)
Definition path_div (p child : string) : string :=
  path_str (path_root p) (path_parts p ++ [child]).

(** What the scan of the desktop files depends on: the home directory,
    the variable [XDG_DATA_DIRS] if it is set, and for a directory that
    exists the desktop files [glob] yields in it, each with what reading
    it gives. *)
Record desktop : Type := mkDesktop {
  desktop_home : string;
  xdg_data_dirs : option string;
  glob_desktop :
    string -> option (list (string * pyresult (option section)))
}.

(** The directories [_scan_desktop_files] goes through, in order. *)
Definition app_dirs (d : desktop) : list string :=
  ["/usr/share/applications";
   "/usr/local/share/applications";
   path_div (path_div (path_div (desktop_home d) ".local") "share")
     "applications"]
  ++ map (fun x => path_div x "applications")
       (filter nonempty
          (split_on ":"
             match xdg_data_dirs d with
             | Some v => v
             | None => EmptyString
             end)).

(** The entries read from one directory. *)
Definition dir_entries (d : desktop) (app_dir : string)
  : list DesktopEntry :=
  match glob_desktop d app_dir with
  | None => []
  | Some files =>
      flat_map
        (fun file =>
           match _parse_desktop_file (fst file) (snd file) with
           | Some entry => [entry]
           | None => []
           end) files
  end.

(** [_scan_desktop_files]. *)
Definition _scan_desktop_files (d : desktop) : list DesktopEntry :=
  flat_map (dir_entries d) (app_dirs d).

(** The part of the id of an item after the name of the plugin. *)
Definition slug (entry : DesktopEntry) : string :=
  replace_char " " "_" (str_lower (name entry)).

End Apps.

(** ** Concrete applications *)

(** The section of a desktop file for a text editor. *)
Definition editor_section : Apps.section :=
  fun key =>
    if String.eqb key "name" then Some "Editor"
    else if String.eqb key "exec" then Some "edit %F"
    else if String.eqb key "terminal" then Some "True"
    else if String.eqb key "nodisplay" then Some "no"
    else None.

(** A machine on which only [xterm] is installed and every process
    starts; the command line is split at its only space. *)
Definition xterm_launcher : Apps.launcher :=
  {| Apps.which := fun cmd => String.eqb cmd "xterm";
     Apps.shlex_split := fun cmd => Ok (split_on " " cmd);
     Apps.popen := fun _ => Ok tt |}.

(** An entry for a text editor that asks for a terminal, and the
    database of the host once it holds the items of the index. *)
Definition editor_entry : Apps.DesktopEntry :=
  {| Apps.name := "Text Editor";
     Apps.exec_cmd := "edit %F";
     Apps.icon := None;
     Apps.comment := None;
     Apps.terminal := true;
     Apps.path := Some "/usr/share/applications/editor.desktop" |}.

Definition editor_database (id : string) : option MenuItem :=
  find (fun item => String.eqb (item_id item) id)
    (Apps.index [editor_entry]).

(** A machine on which the user keeps an editor of their own under the
    name of the one the system installs. *)
Definition override_desktop : Apps.desktop :=
  {| Apps.desktop_home := "/home/u";
     Apps.xdg_data_dirs := Some "/usr/share/:/opt/share";
     Apps.glob_desktop := fun dir =>
       if String.eqb dir "/usr/share/applications" then
         Some [("/usr/share/applications/editor.desktop",
                Ok (Some editor_section))]
       else if String.eqb dir "/home/u/.local/share/applications" then
         Some [("/home/u/.local/share/applications/editor.desktop",
                Ok (Some (fun key =>
                            if String.eqb key "name" then Some "Editor"
                            else if String.eqb key "exec" then Some "myedit"
                            else None)))]
       else None |}.

(** ** The index builder

    A shallow embedding of [compute_checksum] of [scripts/build_index.py]. *)

Module BuildIndex.

(** Lexicographic comparison of two lists, the way Python compares
    lists: the first pair of different elements decides, and a proper
    prefix is smaller. *)
Fixpoint lex_compare {A : Type} (cmp : A -> A -> comparison)
  (a b : list A) : comparison :=
  match a, b with
  | [], [] => Eq
  | [], _ :: _ => Lt
  | _ :: _, [] => Gt
  | x :: a', y :: b' =>
      match cmp x y with
      | Eq => lex_compare cmp a' b'
      | c => c
      end
  end.

(** What [rglob] yields: a path, given by the components that paths are
    compared by, whether it is a regular file, and what reading it
    gives. *)
Record found : Type := mkFound {
  found_path : list string;
  is_file : bool;
  read_bytes : pyresult string
}.

(** [a <= b] on paths: components are compared as strings, by code
    point. *)
Definition path_leb (a b : found) : bool :=
  match lex_compare String.compare (found_path a) (found_path b) with
  | Gt => false
  | _ => true
  end.

(** Insertion before the first element that is not smaller. *)
Fixpoint insert_path (x : found) (l : list found) : list found :=
  match l with
  | [] => [x]
  | y :: l' => if path_leb x y then x :: l else y :: insert_path x l'
  end.

(** [sorted(l)], computed by insertion from the right. *)
Definition sorted (l : list found) : list found :=
  fold_right insert_path [] l.

Section Checksum.

(** The hash object: [hashlib.sha256()], its [update] and its
    [hexdigest]. *)
Variable hasher : Type.
Variable sha256 : hasher.
Variable update : hasher -> string -> hasher.
Variable hexdigest : hasher -> string.

(** The loop of [compute_checksum]: the regular files are read and fed
    to the hash object; an exception of a read leaves the loop. *)
Fixpoint update_all (paths : list found) (h : hasher) : pyresult hasher :=
  match paths with
  | [] => Ok h
  | file_path :: rest =>
      if is_file file_path then
        content <- read_bytes file_path ;;
        update_all rest (update h content)
      else update_all rest h
  end.

(** [compute_checksum], given what [directory.rglob("*")] yields. *)
Definition compute_checksum (rglob : list found) : pyresult string :=
  h <- update_all (sorted rglob) sha256 ;; Ok (hexdigest h).

End Checksum.

End BuildIndex.

(** A plugin directory as two listings of it, and a hash object that
    keeps what it is fed. *)
Definition plugin_listing : list BuildIndex.found :=
  [BuildIndex.mkFound ["plugins"; "files"; "manifest.toml"] true
     (Ok "name = 'files'");
   BuildIndex.mkFound ["plugins"; "files"; "__pycache__"] false
     (Raise (OSError "IsADirectoryError"));
   BuildIndex.mkFound ["plugins"; "files"; "__init__.py"] true
     (Ok "import os")].

Definition plugin_listing_again : list BuildIndex.found :=
  [BuildIndex.mkFound ["plugins"; "files"; "__init__.py"] true
     (Ok "import os");
   BuildIndex.mkFound ["plugins"; "files"; "manifest.toml"] true
     (Ok "name = 'files'");
   BuildIndex.mkFound ["plugins"; "files"; "__pycache__"] false
     (Raise (OSError "IsADirectoryError"))].

(** * Properties *)

(** ** Induction over directory trees *)

Section DirnodeInd.

Variable P : dirnode -> Prop.
Hypothesis P_denied : P Denied.
Hypothesis P_listing :
  forall files dirs,
    Forall (fun entry => P (snd entry)) dirs -> P (Listing files dirs).

Fixpoint dirnode_tree_ind (node : dirnode) : P node :=
  match node with
  | Denied => P_denied
  | Listing files dirs =>
      P_listing files dirs
        ((fix all (l : list (string * dirnode))
            : Forall (fun entry => P (snd entry)) l :=
            match l with
            | [] => Forall_nil _
            | entry :: l' =>
                Forall_cons entry (dirnode_tree_ind (snd entry)) (all l')
            end) dirs)
  end.

End DirnodeInd.

(** ** The cap *)

Section Cap.

Variable m : Z.
Hypothesis m_pos : (0 < m)%Z.

Lemma capped_nil (acc : list string) :
  (Z.of_nat (length acc) < m)%Z -> capped m acc [] = Next acc.
Proof.
  intros Hlt. unfold capped. rewrite app_nil_r.
  destruct (Z.ltb_spec (Z.of_nat (length acc)) m); [reflexivity | lia].
Qed.

(** Sequencing two capped extensions is one capped extension. *)
Lemma capped_seq (k : list string -> flow) (acc l1 l2 : list string) :
  (forall a, (Z.of_nat (length a) < m)%Z -> k a = capped m a l2) ->
  match capped m acc l1 with
  | Return r => Return r
  | Next a => k a
  end = capped m acc (l1 ++ l2).
Proof.
  intros Hk. unfold capped at 1.
  destruct (Z.ltb_spec (Z.of_nat (length (acc ++ l1))) m) as [Hlt | Hge].
  - rewrite (Hk _ Hlt). unfold capped. now rewrite <- app_assoc.
  - unfold capped. rewrite (app_assoc acc l1 l2).
    assert (Hlen : length (acc ++ l1) <= length ((acc ++ l1) ++ l2))
      by (rewrite (length_app (acc ++ l1)); lia).
    destruct (Z.ltb_spec (Z.of_nat (length ((acc ++ l1) ++ l2))) m);
      [lia |].
    rewrite (firstn_app (Z.to_nat m) (acc ++ l1) l2).
    replace (Z.to_nat m - length (acc ++ l1)) with 0 by lia.
    cbn [firstn]. now rewrite app_nil_r.
Qed.

(** What is left of a capped extension when the loops are over. *)
Lemma capped_length (acc l : list string) (r : list string) :
  capped m acc l = Return r \/ capped m acc l = Next r ->
  r = firstn (Z.to_nat m) (acc ++ l).
Proof.
  unfold capped.
  destruct (Z.ltb_spec (Z.of_nat (length (acc ++ l))) m) as [Hlt | Hge];
    intros [H | H]; inversion H; subst; try reflexivity.
  symmetry. apply firstn_all2. lia.
Qed.

End Cap.

(** ** The walker against its uncapped collection *)

Section WalkerSpec.

Variable cfg : FilesConfig.
Hypothesis cap_pos : (0 < max_files cfg)%Z.

Let m := max_files cfg.

Lemma visit_files_capped (root : string) (files acc : list string) :
  (Z.of_nat (length acc) < m)%Z ->
  visit_files cfg root files acc = capped m acc (dir_files cfg root files).
Proof.
  revert acc. induction files as [| filename rest IH]; intros acc Hlt.
  - cbn. symmetry. now apply capped_nil.
  - cbn [visit_files]. unfold dir_files. cbn [filter].
    destruct (keep_file cfg filename) eqn:Hkeep.
    + cbn [map]. fold m.
      destruct (Z.geb_spec (Z.of_nat (length (acc ++ [os_path_join root filename]))) m)
        as [Hge | Hlt'].
      * rewrite length_app in Hge. cbn in Hge.
        unfold capped.
        match goal with
        | |- context [(?a <? m)%Z] =>
            destruct (Z.ltb_spec a m) as [Hc | Hc]
        end.
        { rewrite length_app in Hc. cbn in Hc. lia. }
        f_equal.
        change (os_path_join root filename
                  :: map (os_path_join root) (filter (keep_file cfg) rest))
          with ([os_path_join root filename]
                  ++ map (os_path_join root) (filter (keep_file cfg) rest)).
        rewrite app_assoc, firstn_app.
        replace (Z.to_nat m - length (acc ++ [os_path_join root filename]))
          with 0 by (rewrite length_app; cbn; lia).
        cbn [firstn]. rewrite app_nil_r.
        symmetry. apply firstn_all2. rewrite length_app. cbn. lia.
      * rewrite (IH _ Hlt'). unfold dir_files, capped.
        now rewrite <- app_assoc.
    + now apply IH.
Qed.

Lemma descend_capped
  (visit : string -> dirnode -> list string -> flow)
  (found : string -> dirnode -> list string)
  (keep : string -> bool) (dirs : list (string * dirnode)) :
  Forall (fun entry =>
            forall acc, (Z.of_nat (length acc) < m)%Z ->
              visit (fst entry) (snd entry) acc
              = capped m acc (found (fst entry) (snd entry))) dirs ->
  forall acc, (Z.of_nat (length acc) < m)%Z ->
    descend visit keep dirs acc = capped m acc (collect found keep dirs).
Proof.
  induction 1 as [| [d sub] rest Hhead _ IH]; intros acc Hlt.
  - cbn. symmetry. now apply capped_nil.
  - cbn [descend collect]. destruct (keep d).
    + cbn [fst snd] in Hhead. rewrite (Hhead _ Hlt).
      now apply capped_seq.
    + now apply IH.
Qed.

Lemma walk_capped (path : string) (node : dirnode) :
  forall root acc, (Z.of_nat (length acc) < m)%Z ->
    walk cfg path root node acc = capped m acc (eligible cfg path root node).
Proof.
  induction node as [| files dirs IH] using dirnode_tree_ind;
    intros root acc Hlt.
  - cbn. symmetry. now apply capped_nil.
  - cbn [walk eligible]. destruct (too_deep cfg path root).
    + symmetry. now apply capped_nil.
    + rewrite (visit_files_capped _ _ _ Hlt).
      apply capped_seq; [exact cap_pos |].
      intros a Ha. apply descend_capped; [| exact Ha].
      apply Forall_forall. intros entry Hin acc' Hacc'.
      rewrite Forall_forall in IH. now apply IH.
Qed.

Variable w : world.

Lemma python_roots_capped (paths acc : list string) :
  (Z.of_nat (length acc) < m)%Z ->
  python_roots cfg w paths acc
  = firstn (Z.to_nat m) (acc ++ flat_map (python_root_files cfg w) paths).
Proof.
  revert acc. induction paths as [| scan_path rest IH]; intros acc Hlt.
  - cbn. rewrite app_nil_r. symmetry. apply firstn_all2. lia.
  - cbn [python_roots flat_map]. unfold python_root_files at 1.
    destruct (lookup w (expanduser w scan_path)) as [node |].
    + rewrite (walk_capped _ _ _ _ Hlt). rewrite app_assoc.
      unfold capped.
      destruct (Z.ltb_spec
                  (Z.of_nat (length (acc ++ eligible cfg
                                       (expanduser w scan_path)
                                       (expanduser w scan_path) node))) m)
        as [Hc | Hc].
      * now apply IH.
      * match goal with
        | |- _ = firstn _ (?l ++ ?r) =>
            rewrite (firstn_app (Z.to_nat m) l r);
            replace (Z.to_nat m - length l) with 0 by lia
        end.
        cbn [firstn]. now rewrite app_nil_r.
    + cbn [app]. now apply IH.
Qed.

Lemma fd_roots_capped (paths acc : list string) :
  (Z.of_nat (length acc) < m)%Z ->
  fd_roots cfg w paths acc
  = firstn (Z.to_nat m) (acc ++ flat_map (fd_root_files cfg w) paths).
Proof.
  revert acc. induction paths as [| scan_path rest IH]; intros acc Hlt.
  - cbn. rewrite app_nil_r. symmetry. apply firstn_all2. lia.
  - cbn [fd_roots flat_map]. unfold fd_root_files at 1.
    destruct (lookup w (expanduser w scan_path)) as [node |];
      [| cbn [app]; now apply IH].
    destruct (subprocess_run w (fd_cmd cfg (expanduser w scan_path)))
      as [[returncode stdout] | e]; [| cbn [app]; now apply IH].
    set (found := if (returncode =? 0)%Z then parse_stdout stdout else []).
    assert (Hacc : (if (returncode =? 0)%Z
                    then acc ++ parse_stdout stdout else acc)
                   = acc ++ found).
    { unfold found. destruct (returncode =? 0)%Z;
        [reflexivity | now rewrite app_nil_r]. }
    rewrite Hacc, app_assoc. fold m.
    destruct (Z.geb_spec (Z.of_nat (length (acc ++ found))) m)
      as [Hge | Hlt'].
    + unfold slice_to.
      destruct (Z.ltb_spec m 0) as [Hneg | _]; [lia |].
      rewrite (firstn_app (Z.to_nat m) (acc ++ found)).
      replace (Z.to_nat m - length (acc ++ found)) with 0 by lia.
      cbn [firstn]. now rewrite app_nil_r.
    + now apply IH.
Qed.

End WalkerSpec.

(** ** The two backends as capped concatenations *)

Lemma scan_with_python_capped (cfg : FilesConfig) (w : world) :
  (0 < max_files cfg)%Z ->
  _scan_with_python (Some cfg) w
  = Ok (firstn (Z.to_nat (max_files cfg))
          (flat_map (python_root_files cfg w) (scan_paths cfg))).
Proof.
  intros Hpos. unfold _scan_with_python. f_equal.
  now rewrite (python_roots_capped cfg Hpos w (scan_paths cfg) []).
Qed.

Lemma scan_with_fd_capped (cfg : FilesConfig) (w : world) :
  (0 < max_files cfg)%Z ->
  _scan_with_fd (Some cfg) w
  = Ok (firstn (Z.to_nat (max_files cfg))
          (flat_map (fd_root_files cfg w) (scan_paths cfg))).
Proof.
  intros Hpos. unfold _scan_with_fd. f_equal.
  now rewrite (fd_roots_capped cfg Hpos w (scan_paths cfg) []).
Qed.

Lemma scan_files_backend (cfg : FilesConfig) (w : world) :
  _scan_files (Some cfg) w = _scan_with_fd (Some cfg) w
  \/ _scan_files (Some cfg) w = _scan_with_python (Some cfg) w.
Proof.
  unfold _scan_files. destruct (_has_fd w); [now left | now right].
Qed.

Lemma firstn_length_cap (n : Z) (l : list string) :
  (0 < n)%Z -> (Z.of_nat (length (firstn (Z.to_nat n) l)) <= n)%Z.
Proof.
  intros Hpos. pose proof (firstn_le_length (Z.to_nat n) l).
  rewrite length_firstn. lia.
Qed.

Lemma NoDup_firstn_prefix {A : Type} (n : nat) (l : list A) :
  NoDup l -> NoDup (firstn n l).
Proof.
  revert n. induction l as [| x l IH]; intros n Hnd.
  - rewrite firstn_nil. constructor.
  - destruct n as [| n]; [constructor |].
    inversion Hnd as [| ? ? Hnotin Hrest]; subst. cbn. constructor.
    + intros Hin. apply Hnotin. revert Hin. clear.
      revert n. induction l as [| y l IHl]; intros [| n]; cbn; try tauto.
      intros [-> | Hin]; [now left | right; eauto].
    + now apply IH.
Qed.

(** C4: with a positive cap, each backend returns the first [max_files]
    paths of what it would collect without a cap, so the scan stopped
    with exactly the accumulated prefix, and no result is longer than
    [max_files]. *)
Theorem cap_invariant (cfg : FilesConfig) (w : world) :
  (0 < max_files cfg)%Z ->
  _scan_with_fd (Some cfg) w
  = Ok (firstn (Z.to_nat (max_files cfg))
          (flat_map (fd_root_files cfg w) (scan_paths cfg)))
  /\ _scan_with_python (Some cfg) w
     = Ok (firstn (Z.to_nat (max_files cfg))
             (flat_map (python_root_files cfg w) (scan_paths cfg)))
  /\ forall result,
       _scan_with_fd (Some cfg) w = Ok result
       \/ _scan_with_python (Some cfg) w = Ok result
       \/ _scan_files (Some cfg) w = Ok result ->
       (Z.of_nat (length result) <= max_files cfg)%Z.
Proof.
  intros Hpos.
  pose proof (scan_with_fd_capped cfg w Hpos) as Hfd.
  pose proof (scan_with_python_capped cfg w Hpos) as Hpy.
  repeat split; try assumption.
  intros result Hres.
  assert (Hcases : _scan_with_fd (Some cfg) w = Ok result
                   \/ _scan_with_python (Some cfg) w = Ok result).
  { destruct Hres as [H | [H | H]]; [now left | now right |].
    destruct (scan_files_backend cfg w) as [E | E]; rewrite E in H; tauto. }
  destruct Hcases as [H | H]; [rewrite Hfd in H | rewrite Hpy in H];
    inversion H; subst; now apply firstn_length_cap.
Qed.

Lemma cap_invariant_witness :
  (0 < max_files srv_config)%Z
  /\ _scan_with_python (Some srv_config) srv_world
     = Ok (firstn 3 (flat_map (python_root_files srv_config srv_world)
                       (scan_paths srv_config))).
Proof.
  split; [reflexivity |].
  exact (proj1 (proj2 (cap_invariant srv_config srv_world eq_refl))).
Defined.

(** C5: with two resolved roots and a positive cap, each backend returns
    the first root's paths, as many as the cap admits, followed by the
    second root's paths in what room is left; when the cap is smaller
    than the number of eligible paths the result has exactly [max_files]
    paths. *)
Theorem first_root_first (cfg : FilesConfig) (w : world)
  (first second : string) :
  scan_paths cfg = [first; second] ->
  (0 < max_files cfg)%Z ->
  let cap := Z.to_nat (max_files cfg) in
  let ordered (found : string -> list string) (result : list string) :=
    result = firstn cap (found first)
             ++ firstn (cap - length (found first)) (found second)
    /\ (cap < length (found first) + length (found second) ->
        length result = cap) in
  (exists result, _scan_with_python (Some cfg) w = Ok result
                  /\ ordered (python_root_files cfg w) result)
  /\ (exists result, _scan_with_fd (Some cfg) w = Ok result
                     /\ ordered (fd_root_files cfg w) result).
Proof.
  intros Hroots Hpos cap ordered.
  assert (Hord : forall found,
             ordered found (firstn cap (flat_map found [first; second]))).
  { intros found. unfold ordered. cbn [flat_map]. rewrite app_nil_r.
    rewrite firstn_app. split; [reflexivity |].
    intros Hlt. rewrite length_app, !length_firstn. lia. }
  split.
  - eexists. split; [| apply Hord].
    rewrite (scan_with_python_capped cfg w Hpos). now rewrite Hroots.
  - eexists. split; [| apply Hord].
    rewrite (scan_with_fd_capped cfg w Hpos). now rewrite Hroots.
Qed.

Lemma first_root_first_witness :
  exists result,
    _scan_with_python (Some two_roots_config) srv_world = Ok result
    /\ result
       = firstn 2 (python_root_files two_roots_config srv_world "/srv/a")
         ++ firstn
              (2 - length (python_root_files two_roots_config srv_world
                             "/srv/a"))
              (python_root_files two_roots_config srv_world "/srv/b").
Proof.
  destruct (first_root_first two_roots_config srv_world "/srv/a" "/srv/b"
              eq_refl eq_refl) as [[result [Hres [Hord _]]] _].
  exists result. split; assumption.
Defined.

(** ** Failures of one root or one directory *)

Lemma descend_skips_denied
  (visit : string -> dirnode -> list string -> flow) (keep : string -> bool)
  (before after : list (string * dirnode)) (d : string) :
  (forall acc, visit d Denied acc = Next acc) ->
  forall acc,
    descend visit keep (before ++ (d, Denied) :: after) acc
    = descend visit keep (before ++ after) acc.
Proof.
  intros Hdenied.
  induction before as [| [d' sub] before IH]; intros acc; cbn.
  - destruct (keep d); [now rewrite Hdenied | reflexivity].
  - destruct (keep d'); [| apply IH].
    destruct (visit d' sub acc); [apply IH | reflexivity].
Qed.

(** ** The extension of a file name *)

Section Extension.












Lemma mem_In (x : string) (l : list string) : mem x l = true <-> In x l.
Proof.
  unfold mem. rewrite existsb_exists. split.
  - intros [y [Hin Heq]]. apply String.eqb_eq in Heq. now subst.
  - intros Hin. exists x. split; [exact Hin | apply String.eqb_refl].
Qed.

End Extension.

Section ExtensionFilter.

Variable cfg : FilesConfig.

Lemma keep_file_iff (name : string) :
  keep_file cfg name = true <->
  startswith dot name = false
  /\ (include_extensions cfg = []
      \/ In (ext_of name) (include_extensions cfg)).
Proof.
  unfold keep_file. destruct (startswith dot name).
  - split; [discriminate | intros [H _]; discriminate].
  - destruct (include_extensions cfg) as [| e exts] eqn:Hexts.
    + split; [intros _; split; [reflexivity | now left] | reflexivity].
    + rewrite mem_In. split.
      * intros H. split; [reflexivity | now right].
      * intros [_ [H | H]]; [discriminate | exact H].
Qed.

Hypothesis never_kept : forall name, keep_file cfg name = false.

Lemma visit_files_nothing (root : string) (files acc : list string) :
  visit_files cfg root files acc = Next acc.
Proof.
  induction files as [| name rest IH]; cbn; [reflexivity |].
  now rewrite never_kept.
Qed.

Lemma walk_nothing (path : string) (node : dirnode) :
  forall root acc, walk cfg path root node acc = Next acc.
Proof.
  induction node as [| files dirs IH] using dirnode_tree_ind;
    intros root acc; cbn [walk]; [reflexivity |].
  destruct (too_deep cfg path root); [reflexivity |].
  rewrite visit_files_nothing.
  induction IH as [| [d sub] rest Hhead _ IHrest]; cbn; [reflexivity |].
  destruct (keep_dir cfg d); [| exact IHrest].
  cbn [snd] in Hhead. now rewrite Hhead.
Qed.

Lemma python_roots_nothing (w : world) (paths acc : list string) :
  python_roots cfg w paths acc = acc.
Proof.
  induction paths as [| scan_path rest IH]; cbn; [reflexivity |].
  destruct (lookup w (expanduser w scan_path)); [| exact IH].
  now rewrite walk_nothing.
Qed.

End ExtensionFilter.

(** ** Loading the configuration *)

Lemma load_config_stored_record (d : pydict) :
  _load_config (Some d) = Raise (AttributeError "scan_paths").
Proof. reflexivity. Qed.

(** C2 at its failing input: a stored record that holds [max_depth]
    alone does not load.  The loader asks the record for each field with
    the attribute of the class as default, and the default is evaluated
    before the record is asked; [scan_paths] is no attribute of the
    class, so the first of them raises AttributeError, whatever the
    record holds: every stored record fails, the complete one included,
    and only the absence of a record gives the defaults. *)
Theorem stored_record_raises :
  dict_get depth_only_record "max_depth" (VInt 5) = VInt 3
  /\ FilesConfig_getattr "scan_paths" = Raise (AttributeError "scan_paths")
  /\ _load_config (Some depth_only_record)
     = Raise (AttributeError "scan_paths")
  /\ (forall d, _load_config (Some d) = Raise (AttributeError "scan_paths"))
  /\ _load_config None = Ok (obj_of_config FilesConfig_default).
Proof.
  split; [reflexivity |]. split; [reflexivity |]. split; [reflexivity |].
  split; [exact load_config_stored_record | reflexivity].
Qed.

(** ** Exclusion patterns *)

Lemma descend_skips_unkept
  (visit : string -> dirnode -> list string -> flow) (keep : string -> bool)
  (before after : list (string * dirnode)) (d : string) (sub : dirnode) :
  keep d = false ->
  forall acc,
    descend visit keep (before ++ (d, sub) :: after) acc
    = descend visit keep (before ++ after) acc.
Proof.
  intros Hkeep.
  induction before as [| [d' sub'] before IH]; intros acc; cbn.
  - now rewrite Hkeep.
  - destruct (keep d'); [| apply IH].
    destruct (visit d' sub' acc); [apply IH | reflexivity].
Qed.

(** A directory named by an exclusion pattern is pruned with all that
    lies below it. *)
Lemma excluded_directory_pruned (cfg : FilesConfig) (path root : string)
  (files : list string) (before after : list (string * dirnode))
  (d : string) (sub : dirnode) (acc : list string) :
  In d (exclude_patterns cfg) ->
  walk cfg path root (Listing files (before ++ (d, sub) :: after)) acc
  = walk cfg path root (Listing files (before ++ after)) acc.
Proof.
  intros Hin. cbn [walk].
  destruct (too_deep cfg path root); [reflexivity |].
  destruct (visit_files cfg root files acc); [| reflexivity].
  apply descend_skips_unkept. unfold keep_dir.
  apply mem_In in Hin. now rewrite Hin.
Qed.

(** C3 at its failing input: the walker returns the regular file named
    [venv] although [venv] is an exclusion pattern; the directory
    [node_modules] is pruned. *)
Theorem file_named_as_pattern_is_returned :
  In "venv" (exclude_patterns proj_config)
  /\ _scan_with_python (Some proj_config) proj_world
     = Ok ["/proj/venv"; "/proj/main.py"].
Proof. split; [cbn; tauto | reflexivity]. Qed.

(** ** Separators and depth *)

Lemma count_append (c : ascii) (s t : string) :
  count c (s ++ t) = count c s + count c t.
Proof.
  induction s as [| a s IH]; cbn; [reflexivity | rewrite IH; lia].
Qed.

Lemma count_without (c : ascii) (s : string) :
  contains c s = false -> count c s = 0.
Proof.
  induction s as [| a s IH]; cbn; [reflexivity |].
  intros H. apply orb_false_iff in H. destruct H as [Ha Hs].
  rewrite Ha. now rewrite IH.
Qed.

Lemma startswith_without (c : ascii) (s : string) :
  contains c s = false -> startswith c s = false.
Proof.
  destruct s as [| a s]; cbn; [reflexivity |].
  intros H. now apply orb_false_iff in H.
Qed.


(** Below a root written with a trailing separator, as the root of the
    file system is, the first level adds nothing. *)
Lemma depth_of_child_trailing_sep (path root d : string) :
  contains sep d = false -> endswith sep root = true ->
  depth_of path (os_path_join root d) = depth_of path root.
Proof.
  intros Hd Hend. unfold depth_of, os_path_join.
  rewrite (startswith_without _ _ Hd), Hend, orb_true_r.
  rewrite count_append, (count_without _ _ Hd). lia.
Qed.

(** ** Paths below a root *)

Section Paths.

Lemma tree_all_listing (P : list string -> list (string * dirnode) -> Prop)
  (files : list string) (dirs : list (string * dirnode)) :
  tree_all P (Listing files dirs) <->
  P files dirs /\ Forall (fun entry => tree_all P (snd entry)) dirs.
Proof.
  cbn [tree_all].
  assert (Heach : forall l,
             (fix each (l : list (string * dirnode)) : Prop :=
                match l with
                | [] => True
                | entry :: l' => tree_all P (snd entry) /\ each l'
                end) l
             <-> Forall (fun entry => tree_all P (snd entry)) l).
  { induction l as [| entry l IH].
    - split; [constructor | trivial].
    - rewrite Forall_cons_iff, IH. reflexivity. }
  rewrite Heach. reflexivity.
Qed.

Lemma wf_tree_listing (files : list string) (dirs : list (string * dirnode)) :
  wf_tree (Listing files dirs) <->
  NoDup (files ++ map fst dirs)
  /\ Forall name_ok (files ++ map fst dirs)
  /\ Forall (fun entry => wf_tree (snd entry)) dirs.
Proof. unfold wf_tree. rewrite tree_all_listing. tauto. Qed.

Lemma append_assoc (a b c : string) :
  ((a ++ b) ++ c)%string = (a ++ (b ++ c))%string.
Proof. induction a as [| x a IH]; cbn; [reflexivity | now rewrite IH]. Qed.

Lemma append_cancel_l (a x y : string) :
  (a ++ x)%string = (a ++ y)%string -> x = y.
Proof.
  induction a as [| c a IH]; cbn; [trivial |].
  intros H. inversion H. now apply IH.
Qed.

Lemma contains_append (c : ascii) (s t : string) :
  contains c (s ++ t) = contains c s || contains c t.
Proof.
  induction s as [| a s IH]; cbn; [reflexivity |].
  now rewrite IH, orb_assoc.
Qed.

Lemma endswith_without (c : ascii) (s : string) :
  contains c s = false -> endswith c s = false.
Proof.
  induction s as [| a s IH]; cbn; [reflexivity |].
  intros H. apply orb_false_iff in H. destruct H as [Ha Hs].
  destruct s; [exact Ha | now apply IH].
Qed.

Lemma endswith_append (c : ascii) (s t : string) :
  t <> EmptyString -> endswith c (s ++ t) = endswith c t.
Proof.
  intros Ht. induction s as [| a s IH]; cbn; [reflexivity |].
  destruct (s ++ t)%string eqn:Happ; [| exact IH].
  destruct s; cbn in Happ; [contradiction | discriminate].
Qed.

Lemma nonempty_append_r (s t : string) :
  t <> EmptyString -> nonempty (s ++ t) = true.
Proof. intros Ht. destruct s; cbn; [now destruct t | reflexivity]. Qed.

(** Two paths that start with different entry names differ. *)
Lemma first_component_unique (d d' rest rest' : string) :
  contains sep d = false -> contains sep d' = false ->
  (d ++ String sep rest)%string = (d' ++ String sep rest')%string ->
  d = d'.
Proof.
  revert d'. induction d as [| a d IH]; intros [| b d'] Hd Hd' Heq;
    cbn in *; try reflexivity.
  - inversion Heq; subst. now rewrite Ascii.eqb_refl in Hd'.
  - inversion Heq; subst. now rewrite Ascii.eqb_refl in Hd.
  - inversion Heq; subst.
    apply orb_false_iff in Hd. apply orb_false_iff in Hd'.
    f_equal. now apply IH.
Qed.

Lemma join_entry (root name : string) :
  name_ok name ->
  os_path_join root name = (dir_prefix root ++ name)%string.
Proof.
  intros [_ Hsep]. unfold os_path_join, dir_prefix.
  rewrite (startswith_without _ _ Hsep).
  destruct (negb (nonempty root) || endswith sep root); [reflexivity |].
  now rewrite append_assoc.
Qed.

Lemma join_entry_shape (root d : string) :
  name_ok d ->
  nonempty (os_path_join root d) = true
  /\ endswith sep (os_path_join root d) = false.
Proof.
  intros Hd. rewrite (join_entry _ _ Hd). destruct Hd as [Hne Hsep]. split.
  - now apply nonempty_append_r.
  - rewrite (endswith_append _ _ _ Hne). now apply endswith_without.
Qed.

Lemma dir_prefix_join (root d : string) :
  name_ok d ->
  dir_prefix (os_path_join root d)
  = (dir_prefix root ++ (d ++ String sep EmptyString))%string.
Proof.
  intros Hd. destruct (join_entry_shape root d Hd) as [Hne Hend].
  unfold dir_prefix at 1. rewrite Hne, Hend. cbn [negb orb].
  rewrite (join_entry _ _ Hd). now rewrite append_assoc.
Qed.

Lemma collect_In (visit : string -> dirnode -> list string)
  (keep : string -> bool) (dirs : list (string * dirnode)) (p : string) :
  In p (collect visit keep dirs) ->
  exists d sub, In (d, sub) dirs /\ keep d = true /\ In p (visit d sub).
Proof.
  induction dirs as [| [d sub] rest IH]; cbn; [contradiction |].
  destruct (keep d) eqn:Hkeep.
  - rewrite in_app_iff. intros [Hin | Hin].
    + exists d, sub. auto.
    + destruct (IH Hin) as [d' [sub' [H1 [H2 H3]]]]. exists d', sub'. auto.
  - intros Hin. destruct (IH Hin) as [d' [sub' [H1 [H2 H3]]]].
    exists d', sub'. auto.
Qed.


Variable cfg : FilesConfig.
Variable path : string.

(** Every collected path is the directory prefix of its root followed by
    something. *)
Lemma eligible_below (node : dirnode) :
  forall root p,
    wf_tree node -> In p (eligible cfg path root node) ->
    exists rest, p = (dir_prefix root ++ rest)%string.
Proof.
  induction node as [| files dirs IH] using dirnode_tree_ind;
    intros root p Hwf Hin; cbn [eligible] in Hin; [contradiction |].
  apply wf_tree_listing in Hwf. destruct Hwf as [_ [Hnames Hsubs]].
  destruct (too_deep cfg path root); [contradiction |].
  rewrite Forall_app in Hnames. destruct Hnames as [Hfiles Hdirs].
  apply in_app_iff in Hin. destruct Hin as [Hin | Hin].
  - unfold dir_files in Hin. apply in_map_iff in Hin.
    destruct Hin as [name [<- Hname]]. apply filter_In in Hname.
    rewrite Forall_forall in Hfiles.
    exists name. apply join_entry. now apply Hfiles.
  - apply collect_In in Hin. destruct Hin as [d [sub [Hentry [_ Hp]]]].
    rewrite Forall_forall in IH, Hsubs, Hdirs.
    destruct (IH _ Hentry _ _ (Hsubs _ Hentry) Hp) as [rest ->].
    assert (Hd : name_ok d) by (apply Hdirs, in_map_iff; now exists (d, sub)).
    rewrite (dir_prefix_join _ _ Hd).
    exists ((d ++ String sep EmptyString) ++ rest)%string.
    now rewrite append_assoc.
Qed.

(** Below one root of a well-formed tree the walker collects no path
    twice. *)
Lemma eligible_NoDup (node : dirnode) :
  forall root, wf_tree node -> NoDup (eligible cfg path root node).
Proof.
  induction node as [| files dirs IH] using dirnode_tree_ind;
    intros root Hwf; cbn [eligible]; [constructor |].
  destruct (too_deep cfg path root); [constructor |].
  apply wf_tree_listing in Hwf. destruct Hwf as [Hnodup [Hnames Hsubs]].
  rewrite Forall_app in Hnames. destruct Hnames as [Hfiles Hdirs].
  rewrite Forall_forall in Hfiles.
  assert (Hbelow : forall d sub p,
             In (d, sub) dirs ->
             In p (eligible cfg path (os_path_join root d) sub) ->
             exists rest,
               p = (dir_prefix root ++ (d ++ String sep rest))%string).
  { intros d sub p Hentry Hp. rewrite Forall_forall in Hsubs, Hdirs.
    destruct (eligible_below sub _ _ (Hsubs _ Hentry) Hp) as [rest ->].
    assert (Hd : name_ok d) by (apply Hdirs, in_map_iff; now exists (d, sub)).
    rewrite (dir_prefix_join _ _ Hd). exists rest.
    rewrite !append_assoc. reflexivity. }
  apply NoDup_app.
  - unfold dir_files. apply NoDup_map_NoDup_ForallPairs.
    + intros a b Ha Hb Heq. apply filter_In in Ha, Hb.
      rewrite (join_entry root a), (join_entry root b) in Heq
        by (apply Hfiles; tauto).
      now apply append_cancel_l in Heq.
    + apply NoDup_filter. now apply NoDup_app_remove_r in Hnodup.
  - apply NoDup_app_remove_l in Hnodup. clear Hfiles.
    induction dirs as [| [d sub] rest IHrest]; cbn; [constructor |].
    inversion IH as [| ? ? IHhead IHtail]; subst.
    inversion Hsubs as [| ? ? Hsub Hsubs']; subst.
    inversion Hdirs as [| ? ? Hd Hdirs']; subst.
    cbn in Hnodup. inversion Hnodup as [| ? ? Hfresh Hnodup']; subst.
    assert (Hrest : NoDup (collect
                             (fun d sub =>
                                eligible cfg path (os_path_join root d) sub)
                             (keep_dir cfg) rest)).
    { apply IHrest; try assumption.
      intros d' sub' p Hentry. apply Hbelow. now right. }
    destruct (keep_dir cfg d); [| exact Hrest].
    apply NoDup_app; [now apply IHhead | exact Hrest |].
    intros p Hp Hp'. apply collect_In in Hp'.
    destruct Hp' as [d' [sub' [Hentry [_ Hp']]]].
    destruct (Hbelow d sub p (or_introl eq_refl) Hp) as [r1 E1].
    destruct (Hbelow d' sub' p (or_intror Hentry) Hp') as [r2 E2].
    rewrite E1 in E2. apply append_cancel_l in E2.
    assert (Hd' : name_ok d').
    { rewrite Forall_forall in Hdirs'. apply Hdirs', in_map_iff.
      now exists (d', sub'). }
    apply first_component_unique in E2; [| apply Hd | apply Hd'].
    subst d'. apply Hfresh, in_map_iff. now exists (d, sub').
  - intros p Hp Hp'. unfold dir_files in Hp. apply in_map_iff in Hp.
    destruct Hp as [name [<- Hname]]. apply filter_In in Hname.
    destruct Hname as [Hname _]. apply collect_In in Hp'.
    destruct Hp' as [d [sub [Hentry [_ Hp']]]].
    destruct (Hbelow d sub _ Hentry Hp') as [r E].
    rewrite (join_entry root name (Hfiles _ Hname)) in E.
    apply append_cancel_l in E.
    destruct (Hfiles _ Hname) as [_ Hsep].
    rewrite E, contains_append in Hsep.
    apply orb_false_iff in Hsep. destruct Hsep as [_ Hsep].
    cbn in Hsep. discriminate.
Qed.

End Paths.

(** ** Depth *)




(** C6 at its failing input: scanning [/] with depth bound 1 returns
    [/usr/x], which lies two levels below the root; counted in levels
    nothing is within the bound. *)
Theorem root_slash_depth_off_by_one :
  max_depth slash_config = 1%Z
  /\ depth_of "/" (os_path_join "/" "usr") = 0%Z
  /\ _scan_with_python (Some slash_config) slash_world = Ok ["/usr/x"]
  /\ documented_files slash_config 0 "/" slash_tree = [].
Proof. repeat split; reflexivity. Qed.

(** ** The two backends side by side *)

(** Where a file bears the name of an exclusion pattern the backends
    differ: the delegate, asked to exclude [venv], returns the one path
    the documented filter admits, and the walker returns two. *)
Lemma backends_differ_on_file_named_as_pattern :
  fd_cmd proj_config "/proj"
  = ["fd"; "--type"; "f"; "--absolute-path"; "--max-depth"; "5";
     "--exclude"; ".git"; "--exclude"; "__pycache__";
     "--exclude"; "node_modules"; "--exclude"; ".venv";
     "--exclude"; "venv"; "--exclude"; ".cache"; "/proj"]
  /\ documented_files proj_config 0 "/proj" proj_tree = ["/proj/main.py"]
  /\ _scan_with_fd (Some proj_config) proj_world = Ok ["/proj/main.py"]
  /\ _scan_with_python (Some proj_config) proj_world
     = Ok ["/proj/venv"; "/proj/main.py"].
Proof. repeat split; reflexivity. Qed.




(** ** Duplicates *)

(** C1 (amended): neither backend removes duplicates.  With a positive
    cap the result is the per-root lists concatenated in root order and
    cut to [max_files].  Below one root of a well-formed tree the walker
    lists no path twice, and the result is free of duplicates whenever
    the concatenation of the per-root lists is, that is, when no path is
    reported for two configured roots. *)
Theorem result_is_plain_concatenation (cfg : FilesConfig) (w : world) :
  (0 < max_files cfg)%Z ->
  let cap := Z.to_nat (max_files cfg) in
  let python_all := flat_map (python_root_files cfg w) (scan_paths cfg) in
  let fd_all := flat_map (fd_root_files cfg w) (scan_paths cfg) in
  _scan_with_python (Some cfg) w = Ok (firstn cap python_all)
  /\ _scan_with_fd (Some cfg) w = Ok (firstn cap fd_all)
  /\ (forall scan_path node,
        lookup w (expanduser w scan_path) = Some node -> wf_tree node ->
        NoDup (python_root_files cfg w scan_path))
  /\ (NoDup python_all -> NoDup (firstn cap python_all))
  /\ (NoDup fd_all -> NoDup (firstn cap fd_all))
  /\ (_scan_files (Some cfg) w = Ok (firstn cap python_all)
      \/ _scan_files (Some cfg) w = Ok (firstn cap fd_all)).
Proof.
  intros Hpos cap python_all fd_all.
  pose proof (scan_with_fd_capped cfg w Hpos) as Hfd.
  pose proof (scan_with_python_capped cfg w Hpos) as Hpy.
  split; [exact Hpy |]. split; [exact Hfd |].
  split.
  { intros scan_path node Hlook Hwf. unfold python_root_files.
    rewrite Hlook. now apply eligible_NoDup. }
  split; [apply NoDup_firstn_prefix |].
  split; [apply NoDup_firstn_prefix |].
  destruct (scan_files_backend cfg w) as [E | E]; rewrite E;
    [right | left]; assumption.
Qed.

Lemma result_is_plain_concatenation_witness :
  (0 < max_files twice_config)%Z
  /\ _scan_with_python (Some twice_config) srv_world
     = Ok (firstn (Z.to_nat (max_files twice_config))
             (flat_map (python_root_files twice_config srv_world)
                (scan_paths twice_config))).
Proof.
  split; [reflexivity |].
  exact (proj1 (result_is_plain_concatenation twice_config srv_world eq_refl)).
Defined.

(** C1 as stated fails: a root listed twice yields its file twice, with
    either backend. *)
Lemma root_listed_twice_duplicates :
  _scan_files (Some twice_config) srv_world
  = Ok ["/srv/b/four.txt"; "/srv/b/four.txt"]
  /\ _scan_files (Some twice_config) srv_world_fd
     = Ok ["/srv/b/four.txt"; "/srv/b/four.txt"]
  /\ ~ NoDup ["/srv/b/four.txt"; "/srv/b/four.txt"].
Proof.
  repeat split; try reflexivity.
  intros Hnd. inversion Hnd as [| ? ? Hnotin _]; subst.
  apply Hnotin. now left.
Qed.

(** * Further properties of the scan *)

(** ** What the walker passes over *)

Lemma visit_files_visible (cfg : FilesConfig) (root : string)
  (files acc : list string) :
  visit_files cfg root
    (filter (fun name => negb (startswith dot name)) files) acc
  = visit_files cfg root files acc.
Proof.
  revert acc. induction files as [| name rest IH]; intros acc;
    [reflexivity |].
  cbn [filter]. destruct (startswith dot name) eqn:Hdot; cbn [negb].
  - cbn [visit_files].
    assert (Hkeep : keep_file cfg name = false)
      by (unfold keep_file; now rewrite Hdot).
    rewrite Hkeep. apply IH.
  - cbn [visit_files]. destruct (keep_file cfg name); [| apply IH].
    destruct (_ >=? _)%Z; [reflexivity | apply IH].
Qed.

Lemma walk_prune (cfg : FilesConfig) (path : string) (node : dirnode) :
  forall root acc,
    walk cfg path root (prune cfg node) acc = walk cfg path root node acc.
Proof.
  induction node as [| files dirs IH] using dirnode_tree_ind;
    intros root acc; [reflexivity |].
  cbn [prune walk]. destruct (too_deep cfg path root); [reflexivity |].
  rewrite visit_files_visible.
  destruct (visit_files cfg root files acc) as [acc' | r]; [| reflexivity].
  revert acc'. induction IH as [| [d sub] rest Hhead _ IHrest]; intros acc';
    [reflexivity |].
  cbn [descend]. destruct (keep_dir cfg d) eqn:Hkeep; [| apply IHrest].
  cbn [descend]. rewrite Hkeep. cbn [snd] in Hhead. rewrite Hhead.
  destruct (walk cfg path (os_path_join root d) sub acc');
    [apply IHrest | reflexivity].
Qed.

(** X1: hidden files, hidden directories and directories named by an
    exclusion pattern, with all that lies below them, have no influence
    on what the walker returns, whatever the cap. *)
Theorem walker_ignores_pruned_entries (cfg : FilesConfig) (w : world) :
  _scan_with_python (Some cfg) (prune_world cfg w)
  = _scan_with_python (Some cfg) w.
Proof.
  unfold _scan_with_python. f_equal. generalize (@nil string) as acc.
  induction (scan_paths cfg) as [| scan_path rest IH]; intros acc;
    [reflexivity |].
  cbn [python_roots prune_world expanduser lookup].
  destruct (lookup w (expanduser w scan_path)) as [node |]; cbn [option_map].
  - rewrite walk_prune.
    destruct (walk cfg _ _ node acc); [apply IH | reflexivity].
  - apply IH.
Qed.

(** ** A cap that is not positive *)

Section NoRoom.

Variable cfg : FilesConfig.
Hypothesis no_room : (max_files cfg <= 0)%Z.

Lemma first_only_seq (k : list string -> flow) (l1 l2 : list string) :
  k [] = first_only l2 ->
  match first_only l1 with
  | Return r => Return r
  | Next a => k a
  end = first_only (l1 ++ l2).
Proof. intros Hk. destruct l1; cbn; [exact Hk | reflexivity]. Qed.

Lemma visit_files_first_only (root : string) (files : list string) :
  visit_files cfg root files [] = first_only (dir_files cfg root files).
Proof.
  induction files as [| name rest IH]; [reflexivity |].
  cbn [visit_files]. unfold dir_files. cbn [filter].
  destruct (keep_file cfg name); [| exact IH].
  cbn [app length map first_only].
  destruct (Z.geb_spec (Z.of_nat 1) (max_files cfg)); [reflexivity | lia].
Qed.

Lemma descend_first_only
  (visit : string -> dirnode -> list string -> flow)
  (found : string -> dirnode -> list string)
  (keep : string -> bool) (dirs : list (string * dirnode)) :
  Forall (fun entry =>
            visit (fst entry) (snd entry) []
            = first_only (found (fst entry) (snd entry))) dirs ->
  descend visit keep dirs [] = first_only (collect found keep dirs).
Proof.
  induction 1 as [| [d sub] rest Hhead _ IH]; [reflexivity |].
  cbn [descend collect]. destruct (keep d); [| exact IH].
  cbn [fst snd] in Hhead. rewrite Hhead. now apply first_only_seq.
Qed.

Lemma walk_first_only (path : string) (node : dirnode) :
  forall root,
    walk cfg path root node [] = first_only (eligible cfg path root node).
Proof.
  induction node as [| files dirs IH] using dirnode_tree_ind; intros root;
    [reflexivity |].
  cbn [walk eligible]. destruct (too_deep cfg path root); [reflexivity |].
  rewrite visit_files_first_only. apply first_only_seq.
  apply descend_first_only. apply Forall_forall. intros entry Hin.
  rewrite Forall_forall in IH. now apply IH.
Qed.

Lemma python_roots_first_only (w : world) (paths : list string) :
  python_roots cfg w paths []
  = firstn 1 (flat_map (python_root_files cfg w) paths).
Proof.
  induction paths as [| scan_path rest IH]; [reflexivity |].
  cbn [python_roots flat_map]. unfold python_root_files at 1.
  destruct (lookup w (expanduser w scan_path)) as [node |]; [| exact IH].
  rewrite walk_first_only.
  destruct (eligible cfg _ _ node) as [| p found]; [exact IH | reflexivity].
Qed.

Lemma fd_roots_no_room (w : world) (paths : list string) :
  fd_roots cfg w paths []
  = match first_completed cfg w paths with
    | Some found => slice_to found (max_files cfg)
    | None => []
    end.
Proof.
  induction paths as [| scan_path rest IH]; [reflexivity |].
  cbn [fd_roots first_completed].
  destruct (lookup w (expanduser w scan_path)); [| exact IH].
  destruct (subprocess_run w (fd_cmd cfg (expanduser w scan_path)))
    as [[returncode stdout] | e]; [| exact IH].
  assert (Hfound : (if (returncode =? 0)%Z
                    then [] ++ parse_stdout stdout else [])
                   = if (returncode =? 0)%Z then parse_stdout stdout else [])
    by now destruct (returncode =? 0)%Z.
  rewrite Hfound.
  match goal with
  | |- context [(?a >=? max_files cfg)%Z] =>
      destruct (Z.geb_spec a (max_files cfg)); [reflexivity | lia]
  end.
Qed.

End NoRoom.

(** X3: with a cap that is zero or negative the walker still returns one
    path when there is one: the first path of the uncapped collection,
    and nothing more. *)
Theorem walker_without_room_returns_first (cfg : FilesConfig) (w : world) :
  (max_files cfg <= 0)%Z ->
  _scan_with_python (Some cfg) w
  = Ok (firstn 1 (flat_map (python_root_files cfg w) (scan_paths cfg))).
Proof.
  intros Hroom. unfold _scan_with_python. f_equal.
  now apply python_roots_first_only.
Qed.

Lemma walker_without_room_returns_first_witness :
  (max_files (with_max_files srv_config 0) <= 0)%Z
  /\ _scan_with_python (Some (with_max_files srv_config 0)) srv_world
     = Ok ["/srv/a/one.txt"].
Proof.
  split; [discriminate |].
  exact (walker_without_room_returns_first (with_max_files srv_config 0)
           srv_world ltac:(discriminate)).
Defined.

(** X4: with a cap that is zero or negative the delegate backend stops at
    the first root that exists and whose invocation does not raise, and
    returns that root's paths cut by the slice [[:max_files]]: nothing
    for a cap of zero, all but the last [-max_files] for a negative one. *)
Theorem delegate_without_room (cfg : FilesConfig) (w : world) :
  (max_files cfg <= 0)%Z ->
  _scan_with_fd (Some cfg) w
  = Ok (match first_completed cfg w (scan_paths cfg) with
        | Some found => slice_to found (max_files cfg)
        | None => []
        end)
  /\ (max_files cfg = 0%Z -> _scan_with_fd (Some cfg) w = Ok [])
  /\ (forall found,
        (max_files cfg < 0)%Z ->
        first_completed cfg w (scan_paths cfg) = Some found ->
        _scan_with_fd (Some cfg) w
        = Ok (firstn (length found - Z.to_nat (- max_files cfg)) found)).
Proof.
  intros Hroom.
  assert (Hres : _scan_with_fd (Some cfg) w
                 = Ok (match first_completed cfg w (scan_paths cfg) with
                       | Some found => slice_to found (max_files cfg)
                       | None => []
                       end)).
  { unfold _scan_with_fd. f_equal. now apply fd_roots_no_room. }
  split; [exact Hres |]. split.
  - intros Hzero. rewrite Hres, Hzero.
    now destruct (first_completed cfg w (scan_paths cfg)).
  - intros found Hneg Hfound. rewrite Hres, Hfound. f_equal. unfold slice_to.
    destruct (Z.ltb_spec (max_files cfg) 0); [reflexivity | lia].
Qed.

Lemma delegate_without_room_witness :
  (max_files (with_max_files srv_config (-1)) <= 0)%Z
  /\ _scan_with_fd (Some (with_max_files srv_config (-1))) srv_world
     = Ok ["/srv/a/one.txt"; "/srv/a/two.md"].
Proof.
  split; [discriminate |].
  exact (proj1 (delegate_without_room (with_max_files srv_config (-1))
                  srv_world ltac:(discriminate))).
Defined.

(** ** A deeper bound *)

Lemma collect_incl (v1 v2 : string -> dirnode -> list string)
  (keep : string -> bool) (dirs : list (string * dirnode)) :
  Forall (fun entry =>
            incl (v1 (fst entry) (snd entry)) (v2 (fst entry) (snd entry)))
    dirs ->
  incl (collect v1 keep dirs) (collect v2 keep dirs).
Proof.
  induction 1 as [| [d sub] rest Hhead _ IH]; cbn; [apply incl_refl |].
  destruct (keep d); [| exact IH]. now apply incl_app_app.
Qed.

Lemma eligible_deeper (cfg : FilesConfig) (d' : Z) (path : string)
  (node : dirnode) :
  (d' <= 0 \/ 0 < max_depth cfg <= d')%Z ->
  forall root,
    incl (eligible cfg path root node)
      (eligible (with_max_depth cfg d') path root node).
Proof.
  intros Hdeeper.
  induction node as [| files dirs IH] using dirnode_tree_ind; intros root;
    [apply incl_refl |].
  cbn [eligible]. destruct (too_deep cfg path root) eqn:Hdeep;
    [apply incl_nil_l |].
  assert (Hdeep' : too_deep (with_max_depth cfg d') path root = false).
  { unfold too_deep in *. cbn [max_depth with_max_depth].
    apply andb_false_iff. apply andb_false_iff in Hdeep.
    destruct (Z.gtb_spec d' 0); [right | now left].
    destruct Hdeep as [Hpos | Hlt].
    - destruct (Z.gtb_spec (max_depth cfg) 0); [discriminate | lia].
    - destruct (Z.geb_spec (depth_of path root) (max_depth cfg));
        [discriminate |].
      destruct (Z.geb_spec (depth_of path root) d'); [lia | reflexivity]. }
  rewrite Hdeep'. apply incl_app_app; [apply incl_refl |].
  apply (collect_incl
           (fun d sub => eligible cfg path (os_path_join root d) sub)
           (fun d sub =>
              eligible (with_max_depth cfg d') path (os_path_join root d) sub)
           (keep_dir cfg)).
  apply Forall_forall. intros entry Hin. rewrite Forall_forall in IH.
  now apply IH.
Qed.

Lemma firstn_subset {A : Type} (n : nat) (l : list A) (x : A) :
  In x (firstn n l) -> In x l.
Proof.
  revert n. induction l as [| y l IH]; intros [| n]; cbn; try tauto.
  intros [-> | Hin]; [now left | right; eauto].
Qed.

Lemma firstn_short {A : Type} (n : nat) (l : list A) :
  length (firstn n l) < n -> firstn n l = l.
Proof.
  intros Hlt. apply firstn_all2. rewrite length_firstn in Hlt. lia.
Qed.

(** X5: raising a positive depth bound, or lifting it with a bound that
    is not positive, loses no path: as long as the deeper scan stays
    below the cap, it returns every path the shallower scan returns. *)
Theorem deeper_scan_keeps_paths (cfg : FilesConfig) (w : world) (d' : Z)
  (shallow deep : list string) :
  (0 < max_files cfg)%Z ->
  (d' <= 0 \/ 0 < max_depth cfg <= d')%Z ->
  _scan_with_python (Some cfg) w = Ok shallow ->
  _scan_with_python (Some (with_max_depth cfg d')) w = Ok deep ->
  (Z.of_nat (length deep) < max_files cfg)%Z ->
  incl shallow deep.
Proof.
  intros Hpos Hdeeper Hshallow Hdeep Hroom.
  rewrite (scan_with_python_capped cfg w Hpos) in Hshallow.
  rewrite (scan_with_python_capped (with_max_depth cfg d') w Hpos) in Hdeep.
  inversion Hshallow; inversion Hdeep; subst. clear Hshallow Hdeep.
  cbn [max_files with_max_depth scan_paths] in *.
  rewrite (firstn_short (Z.to_nat (max_files cfg))
             (flat_map (python_root_files (with_max_depth cfg d') w)
                (scan_paths cfg))) by lia.
  intros p Hin. apply firstn_subset in Hin.
  apply in_flat_map in Hin. destruct Hin as [scan_path [Hroot Hin]].
  apply in_flat_map. exists scan_path. split; [exact Hroot |].
  unfold python_root_files in *. cbn [with_max_depth] in *.
  destruct (lookup w (expanduser w scan_path)) as [node |];
    [| contradiction].
  now apply (eligible_deeper cfg d' _ node Hdeeper).
Qed.

Lemma deeper_scan_keeps_paths_witness :
  incl ["/srv/a/one.txt"; "/srv/a/two.md"; "/srv/b/four.txt"]
    ["/srv/a/one.txt"; "/srv/a/two.md"; "/srv/a/sub/three.txt";
     "/srv/b/four.txt"].
Proof.
  exact (deeper_scan_keeps_paths (with_max_depth wide_config 1) srv_world 2
           _ _ eq_refl ltac:(right; cbn; lia) eq_refl eq_refl eq_refl).
Defined.

(** ** Reading the output of the utility *)

Section Lines.

Lemma rstrip_keeps (s : string) :
  s <> EmptyString -> ends_with_space s = false -> rstrip s = s.
Proof.
  induction s as [| a s IH]; [easy |]. intros _ Hend.
  destruct s as [| b s].
  - cbn in *. now rewrite Hend.
  - change (ends_with_space (String a (String b s)))
      with (ends_with_space (String b s)) in Hend.
    change (rstrip (String a (String b s)))
      with (match rstrip (String b s) with
            | EmptyString =>
                if isspace a then EmptyString else String a EmptyString
            | t => String a t
            end).
    rewrite IH by easy. reflexivity.
Qed.

Lemma rstrip_append (s t : string) :
  rstrip t <> EmptyString -> rstrip (s ++ t) = (s ++ rstrip t)%string.
Proof.
  intros Ht. induction s as [| a s IH]; [reflexivity |].
  cbn [append rstrip]. rewrite IH.
  destruct (s ++ rstrip t)%string eqn:Happ; [| reflexivity].
  destruct s; cbn in Happ; [contradiction | discriminate].
Qed.

Lemma rstrip_newline (s : string) :
  rstrip (s ++ String newline EmptyString) = rstrip s.
Proof.
  induction s as [| a s IH]; [reflexivity |].
  cbn [append rstrip]. now rewrite IH.
Qed.

Lemma split_lines_line (p rest : string) :
  contains newline p = false ->
  split_lines (p ++ String newline rest) = p :: split_lines rest.
Proof.
  induction p as [| a p IH]; intros Hp.
  - cbn. reflexivity.
  - cbn [contains] in Hp. apply orb_false_iff in Hp.
    destruct Hp as [Ha Hp].
    cbn [append split_lines]. rewrite Ha, (IH Hp). reflexivity.
Qed.

Lemma split_lines_single (p : string) :
  contains newline p = false -> split_lines p = [p].
Proof.
  induction p as [| a p IH]; intros Hp; [reflexivity |].
  cbn [contains] in Hp. apply orb_false_iff in Hp. destruct Hp as [Ha Hp].
  cbn [split_lines]. rewrite Ha, (IH Hp). reflexivity.
Qed.

Lemma split_lines_pieces (s : string) :
  Forall (fun piece => contains newline piece = false) (split_lines s).
Proof.
  induction s as [| a s IH]; [repeat constructor |].
  cbn [split_lines]. destruct (Ascii.eqb a newline) eqn:Ha.
  - constructor; [reflexivity | exact IH].
  - destruct (split_lines s) as [| piece rest];
      [repeat constructor; cbn [contains]; now rewrite Ha |].
    inversion IH as [| ? ? Hpiece Hrest]; subst.
    constructor; [| assumption].
    cbn [contains]. now rewrite Ha.
Qed.

Lemma path_line_nonempty (p : string) : path_line p -> p <> EmptyString.
Proof. intros [Hsep _] ->. discriminate. Qed.

Lemma join_lines_nonempty (p : string) (rest : list string) :
  p <> EmptyString -> join_lines (p :: rest) <> EmptyString.
Proof.
  intros Hp. cbn [join_lines]. destruct rest; [exact Hp |].
  destruct p; [contradiction | discriminate].
Qed.

Lemma ends_with_space_append (s t : string) :
  t <> EmptyString -> ends_with_space (s ++ t) = ends_with_space t.
Proof.
  intros Ht. induction s as [| a s IH]; [reflexivity |].
  cbn [append ends_with_space].
  destruct (s ++ t)%string eqn:Happ; [| exact IH].
  destruct s; cbn in Happ; [contradiction | discriminate].
Qed.

Lemma rstrip_unlines (paths : list string) :
  Forall path_line paths ->
  ends_with_space (last paths EmptyString) = false ->
  rstrip (unlines paths) = join_lines paths.
Proof.
  induction paths as [| p rest IH]; intros Hall Hend; [reflexivity |].
  inversion Hall as [| ? ? Hp Hrest]; subst.
  pose proof (path_line_nonempty p Hp) as Hne.
  destruct rest as [| q rest].
  - cbn [unlines join_lines]. cbn [last] in Hend.
    rewrite rstrip_newline. now apply rstrip_keeps.
  - change (last (p :: q :: rest) EmptyString)
      with (last (q :: rest) EmptyString) in Hend.
    specialize (IH Hrest Hend).
    change (unlines (p :: q :: rest))
      with (p ++ String newline (unlines (q :: rest)))%string.
    change (join_lines (p :: q :: rest))
      with (p ++ String newline (join_lines (q :: rest)))%string.
    assert (Hq : join_lines (q :: rest) <> EmptyString).
    { apply join_lines_nonempty. apply path_line_nonempty.
      now inversion Hrest. }
    rewrite rstrip_append.
    + f_equal. change (String newline (unlines (q :: rest)))
        with (String newline EmptyString ++ unlines (q :: rest))%string.
      rewrite rstrip_append; rewrite IH; [reflexivity | exact Hq].
    + change (String newline (unlines (q :: rest)))
        with (String newline EmptyString ++ unlines (q :: rest))%string.
      rewrite rstrip_append; rewrite IH; [discriminate | exact Hq].
Qed.

Lemma split_join_lines (paths : list string) :
  paths <> [] ->
  Forall (fun p => contains newline p = false) paths ->
  split_lines (join_lines paths) = paths.
Proof.
  induction paths as [| p rest IH]; intros Hne Hall; [contradiction |].
  inversion Hall as [| ? ? Hp Hrest]; subst.
  destruct rest as [| q rest].
  - cbn [join_lines]. now apply split_lines_single.
  - change (join_lines (p :: q :: rest))
      with (p ++ String newline (join_lines (q :: rest)))%string.
    rewrite (split_lines_line _ _ Hp). f_equal. now apply IH.
Qed.

End Lines.

(** X6: when the utility prints absolute, newline-free paths, one to a
    line, and the last of them does not end in white space, the paths
    read from its output are exactly the paths printed, in order. *)
Theorem parse_stdout_reads_lines (paths : list string) :
  Forall path_line paths ->
  ends_with_space (last paths EmptyString) = false ->
  parse_stdout (unlines paths) = paths.
Proof.
  intros Hall Hend. destruct paths as [| p rest]; [reflexivity |].
  unfold parse_stdout, strip.
  assert (Hl : lstrip (unlines (p :: rest)) = unlines (p :: rest)).
  { inversion Hall as [| ? ? [Hsep _] _]; subst.
    destruct p as [| a p]; [discriminate |].
    cbn in Hsep. apply Ascii.eqb_eq in Hsep. subst a. reflexivity. }
  rewrite Hl, (rstrip_unlines _ Hall Hend).
  rewrite split_join_lines.
  - apply forallb_filter_id. apply forallb_forall. intros q Hq.
    rewrite Forall_forall in Hall. destruct (Hall q Hq) as [Hsep _].
    destruct q; [discriminate | reflexivity].
  - discriminate.
  - apply Forall_forall. intros q Hq.
    rewrite Forall_forall in Hall. now destruct (Hall q Hq).
Qed.

Lemma parse_stdout_reads_lines_witness :
  parse_stdout (unlines ["/srv/a/one.txt"; "/srv/a/two words.md"])
  = ["/srv/a/one.txt"; "/srv/a/two words.md"].
Proof.
  apply parse_stdout_reads_lines; [| reflexivity].
  repeat constructor.
Defined.

(** X7: whatever the utility prints and whatever the cap, no path the
    delegate backend returns is empty or contains a line feed. *)
Theorem delegate_returns_lines (cfg : FilesConfig) (w : world)
  (result : list string) :
  _scan_with_fd (Some cfg) w = Ok result ->
  Forall (fun p => p <> EmptyString /\ contains newline p = false) result.
Proof.
  set (line := fun p => p <> EmptyString /\ contains newline p = false).
  assert (Hparse : forall stdout, Forall line (parse_stdout stdout)).
  { intros stdout. unfold parse_stdout. apply Forall_forall. intros p Hp.
    apply filter_In in Hp. destruct Hp as [Hin Hne].
    pose proof (split_lines_pieces (strip stdout)) as Hpieces.
    rewrite Forall_forall in Hpieces. split; [| now apply Hpieces].
    intros ->. discriminate. }
  assert (Hslice : forall l n, Forall line l -> Forall line (slice_to l n)).
  { intros l n Hl. unfold slice_to. apply Forall_forall. intros p Hp.
    rewrite Forall_forall in Hl. apply Hl.
    destruct (n <? 0)%Z; now apply firstn_subset in Hp. }
  assert (Hgen : forall paths acc,
             Forall line acc -> Forall line (fd_roots cfg w paths acc)).
  { induction paths as [| scan_path rest IH]; intros acc Hacc; [exact Hacc |].
    cbn [fd_roots].
    destruct (lookup w (expanduser w scan_path)); [| now apply IH].
    destruct (subprocess_run w (fd_cmd cfg (expanduser w scan_path)))
      as [[returncode stdout] | e]; [| now apply IH].
    assert (Hnew : Forall line
                     (if (returncode =? 0)%Z
                      then acc ++ parse_stdout stdout else acc)).
    { destruct (returncode =? 0)%Z; [| exact Hacc].
      apply Forall_app. split; [exact Hacc | apply Hparse]. }
    destruct (_ >=? _)%Z; [now apply Hslice | now apply IH]. }
  unfold _scan_with_fd. intros H. inversion H. apply Hgen. constructor.
Qed.

Lemma delegate_returns_lines_witness :
  Forall (fun p => p <> EmptyString /\ contains newline p = false)
    ["/srv/a/one.txt"; "/srv/a/two.md"; "/srv/a/sub/three.txt"].
Proof.
  exact (delegate_returns_lines srv_config srv_world _ eq_refl).
Defined.

(** * The menu of files *)

Section FileNames.

Lemma split_on_single (c : ascii) (t : string) :
  contains c t = false -> split_on c t = [t].
Proof.
  induction t as [| a t IH]; intros Ht; [reflexivity |].
  cbn [contains] in Ht. apply orb_false_iff in Ht. destruct Ht as [Ha Ht].
  cbn [split_on]. rewrite Ha, (IH Ht). reflexivity.
Qed.

Lemma split_on_after_sep (c : ascii) (s t : string) :
  endswith c s = true -> contains c t = false ->
  exists first init, split_on c (s ++ t) = first :: init ++ [t].
Proof.
  intros Hend Ht. induction s as [| a s IH]; [discriminate |].
  cbn [append split_on]. destruct s as [| b s].
  - cbn in Hend. rewrite Hend. cbn [append].
    rewrite (split_on_single c t Ht). now exists EmptyString, [].
  - change (endswith c (String a (String b s)))
      with (endswith c (String b s)) in Hend.
    destruct (IH Hend) as [first [init Hsplit]]. rewrite Hsplit.
    destruct (Ascii.eqb a c).
    + now exists EmptyString, (first :: init).
    + now exists (String a first), init.
Qed.

Lemma dir_prefix_shape (root : string) :
  dir_prefix root = EmptyString \/ endswith sep (dir_prefix root) = true.
Proof.
  unfold dir_prefix. destruct (nonempty root) eqn:Hne; cbn [negb orb].
  - destruct (endswith sep root) eqn:Hend; [now right |].
    right. now rewrite endswith_append.
  - left. now destruct root.
Qed.

(** The name [pathlib] reads off a joined path is the entry name. *)
Lemma path_name_join (dir name : string) :
  name_ok name -> startswith dot name = false ->
  path_name (os_path_join dir name) = name.
Proof.
  intros Hok Hvis. rewrite (join_entry dir name Hok).
  destruct Hok as [Hne Hsep]. unfold path_name, path_parts.
  assert (Hkeep : nonempty name && negb (String.eqb name ".") = true).
  { destruct name as [| a name]; [contradiction |]. cbn [nonempty andb].
    destruct (String.eqb_spec (String a name) "."); [| reflexivity].
    inversion e; subst. discriminate. }
  destruct (dir_prefix_shape dir) as [-> | Hend].
  - cbn [append]. rewrite (split_on_single sep name Hsep). cbn [filter].
    now rewrite Hkeep.
  - destruct (split_on_after_sep sep _ name Hend Hsep) as [first [init ->]].
    change (first :: init ++ [name]) with ((first :: init) ++ [name]).
    rewrite filter_app. cbn [filter]. rewrite Hkeep. apply last_last.
Qed.

End FileNames.

Section NamedPaths.

Variable cfg : FilesConfig.

Lemma visit_files_named (root : string) (files acc : list string) :
  Forall name_ok files -> Forall named_path acc ->
  Forall named_path (flow_list (visit_files cfg root files acc)).
Proof.
  revert acc. induction files as [| name rest IH]; intros acc Hnames Hacc;
    [exact Hacc |].
  inversion Hnames as [| ? ? Hname Hrest]; subst.
  cbn [visit_files]. destruct (keep_file cfg name) eqn:Hkeep;
    [| now apply IH].
  assert (Hnew : Forall named_path (acc ++ [os_path_join root name])).
  { apply Forall_app. split; [exact Hacc |]. constructor; [| constructor].
    apply keep_file_iff in Hkeep. destruct Hkeep as [Hvis _].
    now exists root, name. }
  destruct (_ >=? _)%Z; [exact Hnew | now apply IH].
Qed.

Lemma walk_named (path : string) (node : dirnode) :
  forall root acc,
    wf_tree node -> Forall named_path acc ->
    Forall named_path (flow_list (walk cfg path root node acc)).
Proof.
  induction node as [| files dirs IH] using dirnode_tree_ind;
    intros root acc Hwf Hacc; [exact Hacc |].
  cbn [walk]. destruct (too_deep cfg path root); [exact Hacc |].
  apply wf_tree_listing in Hwf. destruct Hwf as [_ [Hnames Hsubs]].
  rewrite Forall_app in Hnames. destruct Hnames as [Hfiles _].
  pose proof (visit_files_named root files acc Hfiles Hacc) as Hvisit.
  destruct (visit_files cfg root files acc) as [acc' | r]; [| exact Hvisit].
  cbn [flow_list] in Hvisit. revert acc' Hvisit. clear Hfiles.
  induction IH as [| [d sub] rest Hhead _ IHrest]; intros acc' Hacc';
    [exact Hacc' |].
  inversion Hsubs as [| ? ? Hsub Hsubs']; subst.
  cbn [descend]. destruct (keep_dir cfg d); [| now apply IHrest].
  cbn [snd] in Hhead, Hsub.
  pose proof (Hhead (os_path_join root d) acc' Hsub Hacc') as Hwalk.
  destruct (walk cfg path (os_path_join root d) sub acc'); [| exact Hwalk].
  now apply IHrest.
Qed.

Lemma python_roots_named (w : world) (paths acc : list string) :
  (forall scan_path node,
     lookup w (expanduser w scan_path) = Some node -> wf_tree node) ->
  Forall named_path acc ->
  Forall named_path (python_roots cfg w paths acc).
Proof.
  intros Hwf. revert acc.
  induction paths as [| scan_path rest IH]; intros acc Hacc; [exact Hacc |].
  cbn [python_roots].
  destruct (lookup w (expanduser w scan_path)) as [node |] eqn:Hlook;
    [| now apply IH].
  pose proof (walk_named (expanduser w scan_path) node
                (expanduser w scan_path) acc (Hwf _ _ Hlook) Hacc) as Hwalk.
  destruct (walk cfg _ _ node acc); [now apply IH | exact Hwalk].
Qed.

End NamedPaths.

(** X8: the items of the files menu follow the scan of the configuration
    the plugin holds (the default one when it holds none): one item per
    scanned path, in order, with the path in its metadata and in its id,
    hence at most [max_files] items under a positive cap; and when the
    walker scans well-formed trees each item is titled with the name of
    its file as the directory lists it. *)
Theorem file_items_follow_scan (home : string)
  (config : option FilesConfig) (w : world) (items : list MenuItem) :
  snd (_get_file_items home config w) = Ok items ->
  let cfg :=
    match config with
    | Some c => c
    | None => FilesConfig_default
    end in
  fst (_get_file_items home config w) = Some cfg
  /\ exists files,
       _scan_files (Some cfg) w = Ok files
       /\ map item_metadata items
          = map (fun p => Some [("path", MStr p)]) files
       /\ map item_id items = map (fun p => ("files:" ++ p)%string) files
       /\ ((0 < max_files cfg)%Z ->
           (Z.of_nat (length items) <= max_files cfg)%Z)
       /\ (which_fd w = false ->
           (forall scan_path node,
              lookup w (expanduser w scan_path) = Some node ->
              wf_tree node) ->
           Forall2
             (fun item p =>
                exists dir name,
                  p = os_path_join dir name
                  /\ item_title item = name
                  /\ startswith dot name = false) items files).
Proof.
  intros Hitems cfg.
  assert (Hcfg : match config with
                 | None => Some FilesConfig_default
                 | Some _ => config
                 end = Some cfg) by now destruct config.
  unfold _get_file_items in *. cbn [fst snd] in *. rewrite Hcfg in *.
  split; [reflexivity |].
  destruct (_scan_files (Some cfg) w) as [files | e] eqn:Hscan;
    [| discriminate].
  cbn [bind] in Hitems. inversion Hitems; subst items. clear Hitems.
  exists files. split; [reflexivity |].
  split; [now rewrite map_map |]. split; [now rewrite map_map |]. split.
  - intros Hpos. rewrite length_map.
    destruct (cap_invariant cfg w Hpos) as [_ [_ Hcap]].
    apply Hcap. now right; right.
  - intros Hfd Hwf.
    assert (Hnamed : Forall named_path files).
    { unfold _scan_files, _has_fd in Hscan. rewrite Hfd in Hscan.
      unfold _scan_with_python in Hscan. inversion Hscan.
      apply python_roots_named; [exact Hwf | constructor]. }
    clear Hscan. induction Hnamed as [| p rest Hp _ IH]; cbn [map];
      constructor; [| exact IH].
    destruct Hp as [dir [name [-> [Hok Hvis]]]].
    exists dir, name. split; [reflexivity |]. split; [| exact Hvis].
    cbn [file_item item_title]. now apply path_name_join.
Qed.

Lemma file_items_follow_scan_witness :
  exists files,
    _scan_files (Some srv_config) srv_world = Ok files
    /\ map item_title
         (map (file_item "/home/u")
            ["/srv/a/one.txt"; "/srv/a/two.md"; "/srv/a/sub/three.txt"])
       = ["one.txt"; "two.md"; "three.txt"]
    /\ map item_id
         (map (file_item "/home/u")
            ["/srv/a/one.txt"; "/srv/a/two.md"; "/srv/a/sub/three.txt"])
       = map (fun p => ("files:" ++ p)%string) files.
Proof.
  destruct (file_items_follow_scan "/home/u" (Some srv_config) srv_world
              _ eq_refl)
    as [_ [files [Hscan [_ [Hid _]]]]].
  exists files. split; [exact Hscan |]. split; [reflexivity | exact Hid].
Defined.

(** * The applications plugin *)

Section Strip.

Lemma lstrip_head (s : string) :
  lstrip s = EmptyString
  \/ exists a t, lstrip s = String a t /\ isspace a = false.
Proof.
  induction s as [| a s IH]; [now left |].
  cbn [lstrip]. destruct (isspace a) eqn:Ha; [exact IH |].
  right. now exists a, s.
Qed.

Lemma rstrip_head (a : ascii) (s : string) :
  isspace a = false -> exists t, rstrip (String a s) = String a t.
Proof.
  intros Ha. cbn [rstrip]. destruct (rstrip s) as [| b t].
  - rewrite Ha. now exists EmptyString.
  - now exists (String b t).
Qed.

Lemma rstrip_ends (s : string) : ends_with_space (rstrip s) = false.
Proof.
  induction s as [| a s IH]; [reflexivity |].
  cbn [rstrip]. destruct (rstrip s) as [| b t] eqn:Hr.
  - destruct (isspace a) eqn:Ha; [reflexivity | exact Ha].
  - exact IH.
Qed.

Lemma rstrip_idempotent (s : string) : rstrip (rstrip s) = rstrip s.
Proof.
  destruct (rstrip s) as [| a t] eqn:Hr; [reflexivity |].
  rewrite <- Hr. apply rstrip_keeps; [rewrite Hr; discriminate |].
  apply rstrip_ends.
Qed.

Lemma strip_idempotent (s : string) : strip (strip s) = strip s.
Proof.
  unfold strip. destruct (lstrip_head s) as [-> | [a [t [-> Ha]]]];
    [reflexivity |].
  destruct (rstrip_head a t Ha) as [r Hr]. rewrite Hr.
  cbn [lstrip]. rewrite Ha. rewrite <- Hr. apply rstrip_idempotent.
Qed.

Lemma lstrip_length (s : string) : String.length (lstrip s) <= String.length s.
Proof.
  induction s as [| a s IH]; [reflexivity |].
  cbn [lstrip]. destruct (isspace a); cbn [String.length]; lia.
Qed.

Lemma rstrip_length (s : string) : String.length (rstrip s) <= String.length s.
Proof.
  induction s as [| a s IH]; [reflexivity |].
  cbn [rstrip]. destruct (rstrip s) as [| b t].
  - destruct (isspace a); cbn [String.length]; lia.
  - cbn [String.length] in *. lia.
Qed.

Lemma strip_length (s : string) : String.length (strip s) <= String.length s.
Proof.
  unfold strip. pose proof (rstrip_length (lstrip s)).
  pose proof (lstrip_length s). lia.
Qed.

End Strip.

Section FieldCodes.

Import Apps.

(** Induction that may look two characters ahead. *)
Lemma string_pair_ind (P : string -> Prop) :
  P EmptyString ->
  (forall a, P (String a EmptyString)) ->
  (forall a b s, P s -> P (String b s) -> P (String a (String b s))) ->
  forall s, P s.
Proof.
  intros Hnil Hone Hstep s.
  assert (H : P s /\ forall a, P (String a s)).
  { induction s as [| b s [IH1 IH2]]; [now split |].
    split; [apply IH2 |]. intros a. now apply Hstep. }
  apply H.
Qed.

Lemma drop_field_codes_pair (a b : ascii) (s : string) :
  drop_field_codes (String a (String b s))
  = if Ascii.eqb a percent && field_code_letter b then drop_field_codes s
    else String a (drop_field_codes (String b s)).
Proof.
  cbn [drop_field_codes]. destruct (Ascii.eqb a percent); [| reflexivity].
  now destruct (field_code_letter b).
Qed.

Lemma drop_field_codes_length (s : string) :
  String.length (drop_field_codes s) <= String.length s.
Proof.
  induction s as [| a | a b s IH1 IH2] using string_pair_ind.
  - reflexivity.
  - cbn. destruct (Ascii.eqb a percent); cbn; lia.
  - rewrite drop_field_codes_pair.
    destruct (Ascii.eqb a percent && field_code_letter b);
      cbn [String.length] in *; lia.
Qed.

Lemma drop_field_codes_without (s : string) :
  has_field_code s = false -> drop_field_codes s = s.
Proof.
  induction s as [| a | a b s IH1 IH2] using string_pair_ind; intros Hcode.
  - reflexivity.
  - cbn. now destruct (Ascii.eqb a percent).
  - cbn [has_field_code] in Hcode. apply orb_false_iff in Hcode.
    destruct Hcode as [Hhead Htail].
    rewrite drop_field_codes_pair, Hhead. f_equal. now apply IH2.
Qed.

Lemma drop_field_codes_complete (s : string) :
  has_double_percent s = false ->
  has_field_code (drop_field_codes s) = false.
Proof.
  induction s as [| a | a b s IH1 IH2] using string_pair_ind; intros Hpp.
  - reflexivity.
  - cbn. destruct (Ascii.eqb a percent); cbn;
      now rewrite ?andb_false_r.
  - cbn [has_double_percent] in Hpp. apply orb_false_iff in Hpp.
    destruct Hpp as [Hhead Htail].
    assert (Hs : has_double_percent s = false).
    { cbn [has_double_percent] in Htail. now apply orb_false_iff in Htail. }
    rewrite drop_field_codes_pair.
    destruct (Ascii.eqb a percent && field_code_letter b) eqn:Hab;
      [now apply IH1 |].
    cbn [has_field_code]. rewrite (IH2 Htail), orb_false_r.
    destruct (Ascii.eqb a percent) eqn:Ha; [| reflexivity].
    cbn [andb startswith] in Hhead, Hab |- *.
    destruct s as [| c s].
    + cbn [drop_field_codes]. now destruct (Ascii.eqb b percent).
    + rewrite drop_field_codes_pair. rewrite Hhead. cbn [andb]. exact Hab.
Qed.

Lemma lstrip_field_code (s : string) :
  has_field_code s = false -> has_field_code (lstrip s) = false.
Proof.
  induction s as [| a s IH]; [reflexivity |]. intros Hcode.
  cbn [lstrip]. destruct (isspace a); [| exact Hcode].
  apply IH. cbn [has_field_code] in Hcode.
  now apply orb_false_iff in Hcode.
Qed.

Lemma rstrip_first (s : string) (b : ascii) (t : string) :
  rstrip s = String b t -> exists t', s = String b t'.
Proof.
  destruct s as [| a s]; [discriminate |]. cbn [rstrip].
  destruct (rstrip s).
  - destruct (isspace a); [discriminate |]. intros H. inversion H.
    now exists s.
  - intros H. inversion H. now exists s.
Qed.

Lemma rstrip_field_code (s : string) :
  has_field_code s = false -> has_field_code (rstrip s) = false.
Proof.
  induction s as [| a s IH]; [reflexivity |]. intros Hcode.
  cbn [has_field_code] in Hcode. apply orb_false_iff in Hcode.
  destruct Hcode as [Hhead Htail]. specialize (IH Htail).
  cbn [rstrip]. destruct (rstrip s) as [| b t] eqn:Hr.
  - destruct (isspace a); [reflexivity |]. cbn. now rewrite andb_false_r.
  - cbn [has_field_code]. cbn [has_field_code] in IH. rewrite IH.
    rewrite orb_false_r.
    destruct (rstrip_first s b t Hr) as [t' ->]. exact Hhead.
Qed.

End FieldCodes.

(** X9: [_clean_exec] never lengthens a command and leaves no white
    space at either end; a command without field codes is only stripped;
    and when the command holds no doubled percent sign the result holds
    no field code. *)
Theorem clean_exec_removes_field_codes (exec_cmd : string) :
  String.length (Apps._clean_exec exec_cmd) <= String.length exec_cmd
  /\ strip (Apps._clean_exec exec_cmd) = Apps._clean_exec exec_cmd
  /\ (Apps.has_field_code exec_cmd = false ->
      Apps._clean_exec exec_cmd = strip exec_cmd)
  /\ (Apps.has_double_percent exec_cmd = false ->
      Apps.has_field_code (Apps._clean_exec exec_cmd) = false).
Proof.
  unfold Apps._clean_exec. split; [| split; [| split]].
  - pose proof (strip_length (Apps.drop_field_codes exec_cmd)).
    pose proof (drop_field_codes_length exec_cmd). lia.
  - apply strip_idempotent.
  - intros Hcode. now rewrite drop_field_codes_without.
  - intros Hpp. unfold strip. apply rstrip_field_code, lstrip_field_code.
    now apply drop_field_codes_complete.
Qed.

Lemma clean_exec_removes_field_codes_witness :
  Apps.has_double_percent " firefox --new-window %u " = false
  /\ Apps.has_field_code (Apps._clean_exec " firefox --new-window %u ")
     = false.
Proof.
  split; [reflexivity |].
  exact (proj2 (proj2 (proj2
           (clean_exec_removes_field_codes " firefox --new-window %u ")))
           eq_refl).
Defined.

(** ** The menu of applications *)

Section AppsIndex.

Import Apps.

Lemma index_loop_first (entries : list DesktopEntry) :
  forall seen items,
    index_loop entries seen items
    = items ++ map app_item (first_by_name seen entries).
Proof.
  induction entries as [| entry rest IH]; intros seen items; cbn.
  - now rewrite app_nil_r.
  - destruct (mem (name entry) seen); [apply IH |].
    rewrite IH, <- app_assoc. reflexivity.
Qed.

Lemma first_by_name_fresh (entries : list DesktopEntry) :
  forall seen e,
    In e (first_by_name seen entries) ->
    In e entries /\ ~ In (name e) seen.
Proof.
  induction entries as [| entry rest IH]; intros seen e; cbn;
    [contradiction |].
  destruct (mem (name entry) seen) eqn:Hmem.
  - intros Hin. destruct (IH _ _ Hin). split; [now right | assumption].
  - intros [<- | Hin].
    + split; [now left |]. intros Hseen. apply mem_In in Hseen. congruence.
    + destruct (IH _ _ Hin) as [Hrest Hfresh].
      split; [now right |]. intros Hseen. apply Hfresh. now right.
Qed.

Lemma first_by_name_NoDup (entries : list DesktopEntry) :
  forall seen, NoDup (map name (first_by_name seen entries)).
Proof.
  induction entries as [| entry rest IH]; intros seen; cbn; [constructor |].
  destruct (mem (name entry) seen); [apply IH |].
  cbn. constructor; [| apply IH].
  intros Hin. apply in_map_iff in Hin. destruct Hin as [e [Hname He]].
  destruct (first_by_name_fresh _ _ _ He) as [_ Hfresh].
  apply Hfresh. rewrite Hname. now left.
Qed.

Lemma first_by_name_covers (entries : list DesktopEntry) :
  forall seen n,
    In n (map name entries) ->
    In n seen \/ In n (map name (first_by_name seen entries)).
Proof.
  induction entries as [| entry rest IH]; intros seen n; cbn;
    [contradiction |].
  destruct (mem (name entry) seen) eqn:Hmem.
  - intros [<- | Hin]; [left; now apply mem_In | now apply IH].
  - intros [<- | Hin]; [right; now left |].
    destruct (IH (name entry :: seen) n Hin) as [[<- | Hseen] | Hfirst].
    + right. now left.
    + now left.
    + right. now right.
Qed.

Lemma first_by_name_wins (entries : list DesktopEntry) :
  forall seen e,
    In e (first_by_name seen entries) ->
    find (fun x => String.eqb (name x) (name e)) entries = Some e.
Proof.
  induction entries as [| entry rest IH]; intros seen e; cbn;
    [contradiction |].
  destruct (mem (name entry) seen) eqn:Hmem.
  - intros Hin. destruct (first_by_name_fresh _ _ _ Hin) as [_ Hfresh].
    destruct (String.eqb_spec (name entry) (name e)) as [Heq | _];
      [| now apply (IH seen)].
    exfalso. apply Hfresh. rewrite <- Heq. now apply mem_In.
  - intros [<- | Hin]; [now rewrite String.eqb_refl |].
    destruct (first_by_name_fresh _ _ _ Hin) as [_ Hfresh].
    destruct (String.eqb_spec (name entry) (name e)) as [Heq | _];
      [| now apply (IH (name entry :: seen))].
    exfalso. apply Hfresh. now left.
Qed.

Variable A : Type.
Variable key : A -> string.

Let key_le (a b : A) : Prop := String.leb (key a) (key b) = true.

Lemma insert_by_Permutation (x : A) (l : list A) :
  Permutation (insert_by key x l) (x :: l).
Proof.
  induction l as [| y l IH]; cbn; [reflexivity |].
  destruct (String.leb (key x) (key y)); [reflexivity |].
  rewrite IH. apply perm_swap.
Qed.

Lemma sort_by_Permutation (l : list A) : Permutation (sort_by key l) l.
Proof.
  induction l as [| x l IH]; cbn; [constructor |].
  rewrite insert_by_Permutation. now constructor.
Qed.

Lemma insert_by_Sorted (x : A) (l : list A) :
  Sorted key_le l -> Sorted key_le (insert_by key x l).
Proof.
  induction 1 as [| y l Hsorted IH Hhd]; cbn; [repeat constructor |].
  destruct (String.leb (key x) (key y)) eqn:Hle.
  - constructor; [now constructor |]. now constructor.
  - constructor; [exact IH |].
    assert (Hyx : key_le y x).
    { unfold key_le. destruct (String.leb_total (key x) (key y)); congruence. }
    destruct l as [| z l]; cbn; [now constructor |].
    destruct (String.leb (key x) (key z)); constructor;
      [exact Hyx | now inversion Hhd].
Qed.

Lemma insert_by_stable (k : string) (x : A) (l : list A) :
  filter (fun y => String.eqb (key y) k) (insert_by key x l)
  = filter (fun y => String.eqb (key y) k) (x :: l).
Proof.
  induction l as [| y l IH]; [reflexivity |].
  cbn [insert_by]. destruct (String.leb (key x) (key y)) eqn:Hle;
    [reflexivity |].
  cbn [filter] in *. rewrite IH.
  destruct (String.eqb_spec (key x) k) as [Hx |]; [| reflexivity].
  destruct (String.eqb_spec (key y) k) as [Hy |]; [| reflexivity].
  exfalso. rewrite Hx, <- Hy in Hle.
  destruct (String.leb_total (key y) (key y)); congruence.
Qed.

Lemma sort_by_stable (k : string) (l : list A) :
  filter (fun y => String.eqb (key y) k) (sort_by key l)
  = filter (fun y => String.eqb (key y) k) l.
Proof.
  induction l as [| x l IH]; [reflexivity |].
  cbn [sort_by fold_right]. rewrite insert_by_stable.
  cbn [filter]. fold (sort_by key l). now rewrite IH.
Qed.

Lemma sort_by_Sorted (l : list A) : Sorted key_le (sort_by key l).
Proof.
  induction l as [| x l IH]; cbn; [constructor | now apply insert_by_Sorted].
Qed.

End AppsIndex.

(** X10: the applications menu shows every scanned name once, under the
    first entry that bears it, in the order of the lower-cased titles:
    the titles are pairwise different, they are the names of the scanned
    entries, each item is built from the first entry of its name, the
    list is sorted, and items whose titles differ in letter case only
    stay in the order in which their names were first scanned. *)
Theorem index_sorted_without_repeats (entries : list Apps.DesktopEntry) :
  let items := Apps.index entries in
  NoDup (map item_title items)
  /\ Sorted Apps.title_le items
  /\ (forall n, In n (map item_title items) <-> In n (map Apps.name entries))
  /\ (forall item,
        In item items ->
        exists entry,
          find (fun x => String.eqb (Apps.name x) (item_title item)) entries
          = Some entry
          /\ item = Apps.app_item entry)
  /\ (forall k,
        filter (fun item => String.eqb (Apps.str_lower (item_title item)) k)
          items
        = map Apps.app_item
            (filter (fun e => String.eqb (Apps.str_lower (Apps.name e)) k)
               (Apps.first_by_name [] entries))).
Proof.
  intros items.
  pose (firsts := Apps.first_by_name [] entries).
  assert (Hperm : Permutation items (map Apps.app_item firsts)).
  { unfold items, Apps.index. rewrite index_loop_first. cbn [app].
    apply sort_by_Permutation. }
  assert (Htitles : map item_title (map Apps.app_item firsts)
                    = map Apps.name firsts).
  { rewrite map_map. reflexivity. }
  split; [| split; [| split; [| split]]].
  - apply (Permutation_NoDup
             (l := map item_title (map Apps.app_item firsts))).
    + apply Permutation_map. now symmetry.
    + rewrite Htitles. apply first_by_name_NoDup.
  - apply (sort_by_Sorted MenuItem
             (fun item => Apps.str_lower (item_title item))).
  - intros n. split.
    + intros Hin.
      apply (Permutation_in n (Permutation_map item_title Hperm)) in Hin.
      rewrite Htitles in Hin. apply in_map_iff in Hin.
      destruct Hin as [e [<- He]]. apply in_map.
      now destruct (first_by_name_fresh _ _ _ He).
    + intros Hin.
      apply (Permutation_in n
               (Permutation_map item_title (Permutation_sym Hperm))).
      rewrite Htitles.
      destruct (first_by_name_covers entries [] n Hin) as [[] | H].
      exact H.
  - intros item Hin. apply (Permutation_in item Hperm) in Hin.
    apply in_map_iff in Hin. destruct Hin as [e [<- He]].
    exists e. split; [| reflexivity].
    exact (first_by_name_wins entries [] e He).
  - intros k. unfold items, Apps.index. rewrite index_loop_first. cbn [app].
    rewrite (sort_by_stable MenuItem
               (fun item => Apps.str_lower (item_title item)) k).
    generalize (Apps.first_by_name [] entries) as l.
    induction l as [| e l IH]; [reflexivity |].
    cbn [map filter]. cbn [Apps.app_item item_title] in *.
    destruct (String.eqb (Apps.str_lower (Apps.name e)) k); cbn [map];
      now rewrite IH.
Qed.

(** ** Desktop entries and their launch *)

(** X11: an entry read from a desktop file always has a name and a
    command that are not empty and remembers its file; it comes from a
    [Desktop Entry] section whose [NoDisplay] and [Hidden] options, looked
    up in lower case, are not [true] in any letter case, and it asks for
    a terminal exactly when the [Terminal] option is [true] in some
    letter case. *)
Theorem parsed_entry_is_launchable (file : string)
  (parsed : pyresult (option Apps.section)) (entry : Apps.DesktopEntry) :
  Apps._parse_desktop_file file parsed = Some entry ->
  Apps.name entry <> EmptyString
  /\ Apps.exec_cmd entry <> EmptyString
  /\ Apps.path entry = Some file
  /\ exists sec,
       parsed = Ok (Some sec)
       /\ sec "name" = Some (Apps.name entry)
       /\ sec "exec" = Some (Apps.exec_cmd entry)
       /\ Apps.icon entry = sec "icon"
       /\ Apps.comment entry = sec "comment"
       /\ (forall v, sec "nodisplay" = Some v -> Apps.str_lower v <> "true")
       /\ (forall v, sec "hidden" = Some v -> Apps.str_lower v <> "true")
       /\ (Apps.terminal entry = true <->
           exists v, sec "terminal" = Some v /\ Apps.str_lower v = "true").
Proof.
  unfold Apps._parse_desktop_file. intros Hparse.
  destruct parsed as [[sec |] | e]; try discriminate Hparse.
  unfold Apps.section_get in Hparse.
  change (Apps.str_lower "NoDisplay") with "nodisplay" in Hparse.
  change (Apps.str_lower "Hidden") with "hidden" in Hparse.
  change (Apps.str_lower "Name") with "name" in Hparse.
  change (Apps.str_lower "Exec") with "exec" in Hparse.
  change (Apps.str_lower "Icon") with "icon" in Hparse.
  change (Apps.str_lower "Comment") with "comment" in Hparse.
  change (Apps.str_lower "Terminal") with "terminal" in Hparse.
  assert (Hshown : forall key,
             match match sec key with
                   | Some v => Some v
                   | None => Some "false"
                   end with
             | Some s => String.eqb (Apps.str_lower s) "true"
             | None => false
             end = false ->
             forall v, sec key = Some v -> Apps.str_lower v <> "true").
  { intros key Hkey v Hv. rewrite Hv in Hkey.
    now apply String.eqb_neq in Hkey. }
  pose proof (Hshown "nodisplay") as Hnodisplay.
  pose proof (Hshown "hidden") as Hhidden. clear Hshown.
  destruct (match match sec "nodisplay" with
                  | Some v => Some v
                  | None => Some "false"
                  end with
            | Some s => String.eqb (Apps.str_lower s) "true"
            | None => false
            end); [discriminate Hparse |].
  destruct (match match sec "hidden" with
                  | Some v => Some v
                  | None => Some "false"
                  end with
            | Some s => String.eqb (Apps.str_lower s) "true"
            | None => false
            end); [discriminate Hparse |].
  destruct (sec "name") as [n |] eqn:Hname; [| discriminate Hparse].
  destruct (sec "exec") as [x |] eqn:Hexec; [| discriminate Hparse].
  destruct (nonempty n && nonempty x) eqn:Hne; [| discriminate Hparse].
  apply andb_true_iff in Hne. destruct Hne as [Hn Hx].
  inversion Hparse; subst entry. clear Hparse. cbn.
  split; [intros Heq; rewrite Heq in Hn; discriminate Hn |].
  split; [intros Heq; rewrite Heq in Hx; discriminate Hx |].
  split; [reflexivity |].
  exists sec. split; [reflexivity |]. split; [exact Hname |].
  split; [exact Hexec |].
  split; [now destruct (sec "icon") |].
  split; [now destruct (sec "comment") |].
  split; [exact (Hnodisplay eq_refl) |]. split; [exact (Hhidden eq_refl) |].
  split.
  - intros Hterm. destruct (sec "terminal") as [v |]; [| discriminate Hterm].
    exists v. split; [reflexivity | now apply String.eqb_eq].
  - intros [v [Hv Htrue]]. rewrite Hv. now apply String.eqb_eq.
Qed.

Lemma parsed_entry_is_launchable_witness :
  Apps.name
    {| Apps.name := "Editor"; Apps.exec_cmd := "edit %F";
       Apps.icon := None; Apps.comment := None; Apps.terminal := true;
       Apps.path := Some "/usr/share/applications/editor.desktop" |}
  <> EmptyString.
Proof.
  exact (proj1 (parsed_entry_is_launchable
                  "/usr/share/applications/editor.desktop"
                  (Ok (Some editor_section)) _ eq_refl)).
Defined.

Lemma first_terminal_found (l : Apps.launcher) (cmd : string)
  (before after : list string) (term : string) :
  Forall (fun t => Apps.which l t = false) before ->
  Apps.which l term = true ->
  Apps.first_terminal l cmd (before ++ term :: after)
  = Some [term; "-e"; cmd].
Proof.
  intros Hbefore Hterm. induction Hbefore as [| t before Ht _ IH]; cbn.
  - unfold Apps._command_exists. now rewrite Hterm.
  - unfold Apps._command_exists. now rewrite Ht.
Qed.

Lemma first_terminal_none (l : Apps.launcher) (cmd : string)
  (terms : list string) :
  Forall (fun t => Apps.which l t = false) terms ->
  Apps.first_terminal l cmd terms = None.
Proof.
  induction 1 as [| t terms Ht _ IH]; cbn; [reflexivity |].
  unfold Apps._command_exists. now rewrite Ht.
Qed.

(** X12: when a terminal is asked for, [_execute] hands the cleaned
    command, unsplit, to the first installed emulator among kitty,
    alacritty, gnome-terminal and xterm, and starts nothing else if that
    fails; without a terminal, or with no emulator installed, it starts
    the cleaned command split into words; an exception of the split or of
    the start leaves no process. *)
Theorem execute_picks_first_terminal (l : Apps.launcher)
  (exec_cmd : string) (terminal : bool) :
  let cmd := Apps._clean_exec exec_cmd in
  (forall before term after,
     terminal = true ->
     Apps.terminals = before ++ term :: after ->
     Forall (fun t => Apps.which l t = false) before ->
     Apps.which l term = true ->
     Apps._execute l exec_cmd terminal
     = match Apps.popen l [term; "-e"; cmd] with
       | Ok _ => Some [term; "-e"; cmd]
       | Raise _ => None
       end)
  /\ (terminal = false
      \/ Forall (fun t => Apps.which l t = false) Apps.terminals ->
      Apps._execute l exec_cmd terminal
      = match Apps.shlex_split l cmd with
        | Ok argv =>
            match Apps.popen l argv with
            | Ok _ => Some argv
            | Raise _ => None
            end
        | Raise _ => None
        end).
Proof.
  intros cmd. split.
  - intros before term after -> Hterms Hbefore Hterm.
    unfold Apps._execute. fold cmd. rewrite Hterms.
    rewrite (first_terminal_found l cmd before after term Hbefore Hterm).
    now destruct (Apps.popen l [term; "-e"; cmd]).
  - intros Hdirect. unfold Apps._execute. fold cmd.
    assert (Hattempt :
              (if terminal
               then match Apps.first_terminal l cmd Apps.terminals with
                    | Some argv => _ <- Apps.popen l argv ;; Ok argv
                    | None =>
                        argv <- Apps.shlex_split l cmd ;;
                        _ <- Apps.popen l argv ;; Ok argv
                    end
               else argv <- Apps.shlex_split l cmd ;;
                    _ <- Apps.popen l argv ;; Ok argv)
              = (argv <- Apps.shlex_split l cmd ;;
                 _ <- Apps.popen l argv ;; Ok argv)).
    { destruct Hdirect as [-> | Hnone]; [reflexivity |].
      rewrite (first_terminal_none l cmd _ Hnone). now destruct terminal. }
    rewrite Hattempt. destruct (Apps.shlex_split l cmd) as [argv | e];
      [| reflexivity].
    cbn [bind]. now destruct (Apps.popen l argv).
Qed.

Lemma execute_picks_first_terminal_witness :
  Apps._execute xterm_launcher " top %f" true = Some ["xterm"; "-e"; "top"].
Proof.
  apply (proj1 (execute_picks_first_terminal xterm_launcher " top %f" true)
           ["kitty"; "alacritty"; "gnome-terminal"] "xterm" []);
    [reflexivity | reflexivity | repeat constructor | reflexivity].
Defined.


(** * The menus of the files plugin *)

Section Sessions.

Variable w : world.
Variable home : string.
Variable popen_starts : list string -> bool.

Lemma continues_refl (s : session) : continues s s.
Proof.
  split; [reflexivity |]. split; [now exists [] |].
  exists []. split; [now rewrite app_nil_r | constructor].
Qed.

Lemma continues_trans (s1 s2 s3 : session) :
  continues s1 s2 -> continues s2 s3 -> continues s1 s3.
Proof.
  intros [Hh1 [[u1 Ha1] [m1 [Hl1 Hs1]]]] [Hh2 [[u2 Ha2] [m2 [Hl2 Hs2]]]].
  split; [congruence |]. split.
  - exists (u1 ++ u2). now rewrite Ha1, Ha2, app_assoc.
  - exists (m1 ++ m2). split; [now rewrite Hl2, Hl1, app_assoc |].
    now apply Forall_app.
Qed.

Lemma continues_length (s s' : session) :
  continues s s' -> length (answers s') <= length (answers s).
Proof.
  intros [_ [[used ->] _]]. rewrite length_app. lia.
Qed.

Lemma silent_started (events : list event) :
  silent events -> started events = 0.
Proof.
  unfold started. induction 1 as [| e events He _ IH]; [reflexivity |].
  cbn. destruct e; try contradiction; exact IH.
Qed.

Lemma started_app (l1 l2 : list event) :
  started (l1 ++ l2) = started l1 + started l2.
Proof. unfold started. now rewrite filter_app, length_app. Qed.

Lemma continues_started (s s' : session) :
  continues s s' -> started (log s') = started (log s).
Proof.
  intros [_ [_ [more [-> Hsilent]]]].
  rewrite started_app, (silent_started _ Hsilent). lia.
Qed.

Lemma continues_notify (message : string) (s : session) :
  continues s (record (Notify message) s).
Proof.
  split; [reflexivity |]. split; [now exists [] |].
  exists [Notify message]. split; [reflexivity | now repeat constructor].
Qed.

Lemma continues_waiting (prompt : string) (items : list MenuItem)
  (s : session) :
  continues s (record (Menu prompt items) s).
Proof.
  split; [reflexivity |]. split; [now exists [] |].
  exists [Menu prompt items]. split; [reflexivity | now repeat constructor].
Qed.

Lemma ctx_menu_answer (items : list MenuItem) (prompt : string)
  (s s1 : session) (selected : option MenuItem) :
  ctx_menu items prompt s = Some (selected, s1) ->
  continues s s1 /\ length (answers s) = S (length (answers s1)).
Proof.
  unfold ctx_menu. destruct (answers s) as [| a rest] eqn:Hanswers;
    [discriminate |].
  intros H. inversion H; subst. cbn. split; [| reflexivity].
  split; [reflexivity |]. cbn. split; [now exists [selected] |].
  exists [Menu prompt items]. split; [reflexivity | now repeat constructor].
Qed.

Lemma ctx_menu_none (items : list MenuItem) (prompt : string) (s : session) :
  ctx_menu items prompt s = None -> answers s = [].
Proof. unfold ctx_menu. now destruct (answers s). Qed.

Lemma paced_returned (fuel : nat) (s s' : session) :
  paced fuel s (Returned, s').
Proof. repeat split; cbn; discriminate. Qed.

Lemma paced_out_of_fuel (s s' : session) : paced 0 s (OutOfFuel, s').
Proof. repeat split; cbn; (lia || discriminate). Qed.

Lemma paced_waiting (fuel : nat) (s s' : session) :
  answers s' = [] -> paced fuel s (Waiting, s').
Proof. intros Hempty. repeat split; cbn; (discriminate || trivial). Qed.

(** A call made after a turn of a loop that used an answer. *)
Lemma paced_later (fuel : nat) (s s2 : session) (r : status * session) :
  length (answers s2) < length (answers s) ->
  paced fuel s2 r -> paced (S fuel) s r.
Proof.
  intros Hlen [Hf [Hr Hw]]. split; [| split]; trivial.
  intros Hlt. apply Hf. lia.
Qed.

Lemma edit_paths_loop_quiet (cfg : FilesConfig) (fuel : nat) :
  forall s, quiet_call fuel s (edit_paths_loop w fuel cfg s).
Proof.
  induction fuel as [| fuel IH]; intros s.
  - split; [apply continues_refl | apply paced_out_of_fuel].
  - cbn [edit_paths_loop].
    destruct (ctx_menu (path_items w cfg) "Scan Paths" s)
      as [[[selected |] s1] |] eqn:Hmenu.
    + destruct (ctx_menu_answer _ _ _ _ _ Hmenu) as [Hcont Hlen].
      assert (Hstep : forall message,
                 quiet_call (S fuel) s
                   (edit_paths_loop w fuel cfg (record (Notify message) s1))).
      { intros message.
        destruct (IH (record (Notify message) s1)) as [Hc Hp].
        split.
        - eapply continues_trans; [exact Hcont |].
          eapply continues_trans; [apply continues_notify | exact Hc].
        - eapply paced_later; [| exact Hp]. cbn. lia. }
      destruct (String.eqb (item_id selected) "files:path:add");
        apply Hstep.
    + destruct (ctx_menu_answer _ _ _ _ _ Hmenu) as [Hcont Hlen].
      split; [exact Hcont | apply paced_returned].
    + split; [apply continues_waiting |].
      apply paced_waiting. cbn. now apply ctx_menu_none in Hmenu.
Qed.

Lemma edit_paths_quiet (fuel : nat) (s : session) :
  quiet_call fuel s (_edit_paths w fuel s).
Proof.
  unfold _edit_paths. destruct (held s) as [cfg |].
  - apply edit_paths_loop_quiet.
  - split; [apply continues_refl | apply paced_returned].
Qed.

(** A call a loop makes after an answer, and what the loop does with
    its result. *)
Lemma quiet_call_inner (fuel : nat) (s s1 : session)
  (r : status * session) :
  continues s s1 -> length (answers s) = S (length (answers s1)) ->
  quiet_call fuel s1 r -> fst r <> Returned ->
  quiet_call (S fuel) s r.
Proof.
  intros Hcont Hlen [Hc Hp] Hstopped. split.
  - eapply continues_trans; eassumption.
  - eapply paced_later; [| exact Hp]. lia.
Qed.

Lemma settings_loop_quiet (cfg : FilesConfig) (fuel : nat) :
  forall s, quiet_call fuel s (settings_loop w fuel cfg s).
Proof.
  induction fuel as [| fuel IH]; intros s.
  - split; [apply continues_refl | apply paced_out_of_fuel].
  - cbn [settings_loop].
    destruct (ctx_menu (settings_items cfg) "Files Settings" s)
      as [[[selected |] s1] |] eqn:Hmenu.
    + destruct (ctx_menu_answer _ _ _ _ _ Hmenu) as [Hcont Hlen].
      assert (Hgo : forall s2,
                 continues s1 s2 ->
                 quiet_call (S fuel) s (settings_loop w fuel cfg s2)).
      { intros s2 Hc12. destruct (IH s2) as [Hc Hp]. split.
        - eapply continues_trans; [exact Hcont |].
          eapply continues_trans; [exact Hc12 | exact Hc].
        - eapply paced_later; [| exact Hp].
          pose proof (continues_length _ _ Hc12). lia. }
      destruct (String.eqb (item_id selected) "files:settings:paths").
      * pose proof (edit_paths_quiet fuel s1) as Hinner.
        destruct (_edit_paths w fuel s1) as [[| e | |] s2] eqn:Hedit.
        -- apply Hgo. exact (proj1 Hinner).
        -- eapply quiet_call_inner; try eassumption. discriminate.
        -- eapply quiet_call_inner; try eassumption. discriminate.
        -- eapply quiet_call_inner; try eassumption. discriminate.
      * destruct (String.eqb (item_id selected) "files:settings:depth");
          [apply Hgo, continues_notify |].
        destruct (String.eqb (item_id selected) "files:settings:rescan");
          [apply Hgo, continues_notify | apply Hgo, continues_refl].
    + destruct (ctx_menu_answer _ _ _ _ _ Hmenu) as [Hcont Hlen].
      split; [exact Hcont | apply paced_returned].
    + split; [apply continues_waiting |].
      apply paced_waiting. cbn. now apply ctx_menu_none in Hmenu.
Qed.

(** The session once the plugin holds a configuration. *)
Lemma hold_effective (s : session) :
  held s <> None -> hold (Some (effective (held s))) s = s.
Proof.
  destruct s as [[cfg |] a l]; cbn; [reflexivity | congruence].
Qed.

Lemma show_settings_quiet (fuel : nat) (s : session) :
  quiet_call fuel (hold (Some (effective (held s))) s)
    (_show_settings w fuel s).
Proof.
  unfold _show_settings. destruct (held s) as [cfg |] eqn:Hheld; cbn.
  - replace (hold (Some cfg) s) with s.
    + apply settings_loop_quiet.
    + destruct s; cbn in *; now subst.
  - apply settings_loop_quiet.
Qed.

Lemma show_settings_held (fuel : nat) (s : session) (cfg : FilesConfig) :
  held s = Some cfg -> quiet_call fuel s (_show_settings w fuel s).
Proof.
  intros Hheld. pose proof (show_settings_quiet fuel s) as H.
  rewrite hold_effective in H; [exact H | congruence].
Qed.

Lemma get_file_items_found (config : option FilesConfig) :
  exists found,
    _get_file_items home config w = (Some (effective config), Ok found).
Proof.
  unfold _get_file_items.
  assert (Hscan : forall cfg, exists files,
             _scan_files (Some cfg) w = Ok files).
  { intros cfg. unfold _scan_files, _scan_with_fd, _scan_with_python.
    destruct (_has_fd w); eexists; reflexivity. }
  destruct config as [cfg |]; cbn [effective].
  - destruct (Hscan cfg) as [files ->]. eexists. reflexivity.
  - destruct (Hscan FilesConfig_default) as [files ->]. eexists.
    reflexivity.
Qed.

Lemma open_file_opened (s s1 : session) (file_path : metaval) :
  continues s s1 ->
  let r := (Returned, _open_file popen_starts file_path s1) in
  continues s (snd r) \/ exists p, opened s r p.
Proof.
  intros Hcont. cbn. unfold _open_file.
  destruct file_path as [p | b |]; try (left; exact Hcont).
  destruct (popen_starts ["xdg-open"; p]); [| left; exact Hcont].
  right. exists p, s1. split; [exact Hcont |]. split; reflexivity.
Qed.

Lemma begun_held (s s0 : session) :
  begun s s0 -> held s <> None -> s0 = s.
Proof.
  intros [-> | ->] Hheld; [reflexivity | now apply hold_effective].
Qed.

Lemma menu_call_later (fuel : nat) (s s2 : session)
  (r : status * session) :
  continues s s2 -> length (answers s2) < length (answers s) ->
  menu_call fuel s2 r -> menu_call (S fuel) s r.
Proof.
  intros Hcont Hlen [Hr Hp]. split.
  - destruct Hr as [Hc | [p [s1 [Hc [Hsnd Hfst]]]]].
    + left. eapply continues_trans; eassumption.
    + right. exists p, s1. split; [| now split].
      eapply continues_trans; eassumption.
  - eapply paced_later; eassumption.
Qed.

Lemma show_files_menu_call (fuel : nat) :
  forall s, exists s0,
    begun s s0
    /\ menu_call fuel s0 (_show_files_menu w home popen_starts fuel s).
Proof.
  induction fuel as [| fuel IH]; intros s.
  - exists s. split; [now left |]. cbn.
    split; [left; apply continues_refl | apply paced_out_of_fuel].
  - exists (hold (Some (effective (held s))) s). split; [now right |].
    cbn [_show_files_menu].
    destruct (get_file_items_found (held s)) as [found ->].
    set (s0 := hold (Some (effective (held s))) s).
    assert (Hnext : forall s2,
               continues s0 s2 -> length (answers s2) < length (answers s0) ->
               menu_call (S fuel) s0
                 (_show_files_menu w home popen_starts fuel s2)).
    { intros s2 Hc Hlen. destruct (IH s2) as [s0' [Hbegun Hcall]].
      rewrite (begun_held _ _ Hbegun) in Hcall.
      - eapply menu_call_later; eassumption.
      - destruct Hc as [Hheld _]. rewrite Hheld. discriminate. }
    destruct (ctx_menu (files_menu found) "Files" s0)
      as [[[selected |] s1] |] eqn:Hmenu.
    + destruct (ctx_menu_answer _ _ _ _ _ Hmenu) as [Hcont Hlen].
      assert (Hsame : menu_call (S fuel) s0
                 (_show_files_menu w home popen_starts fuel s1)).
      { apply Hnext; [exact Hcont | lia]. }
      destruct (String.eqb (item_id selected) "files:settings").
      * assert (Hheld1 : held s1 = Some (effective (held s))).
        { destruct Hcont as [Hheld _]. exact Hheld. }
        pose proof (show_settings_held fuel s1 _ Hheld1) as Hinner.
        destruct (_show_settings w fuel s1) as [[| e | |] s2] eqn:Hset.
        -- apply Hnext.
           ++ eapply continues_trans; [exact Hcont | exact (proj1 Hinner)].
           ++ pose proof (continues_length _ _ (proj1 Hinner)).
              cbn [snd] in *. lia.
        -- destruct (quiet_call_inner fuel s0 s1 _ Hcont Hlen Hinner)
             as [Hc Hp]; [discriminate |]. split; [now left | exact Hp].
        -- destruct (quiet_call_inner fuel s0 s1 _ Hcont Hlen Hinner)
             as [Hc Hp]; [discriminate |]. split; [now left | exact Hp].
        -- destruct (quiet_call_inner fuel s0 s1 _ Hcont Hlen Hinner)
             as [Hc Hp]; [discriminate |]. split; [now left | exact Hp].
      * destruct (item_metadata selected) as [[| entry entries] |];
          try exact Hsame.
        destruct (metadata_get (entry :: entries) "path") as [file_path |];
          [| exact Hsame].
        split; [| apply paced_returned].
        now apply open_file_opened.
    + destruct (ctx_menu_answer _ _ _ _ _ Hmenu) as [Hcont Hlen].
      split; [left; exact Hcont | apply paced_returned].
    + split; [left; apply continues_waiting |].
      apply paced_waiting. cbn. now apply ctx_menu_none in Hmenu.
Qed.

Lemma run_call (fuel : nat) (action : string) (s : session) :
  exists s0,
    begun s s0
    /\ menu_call fuel s0 (run w home popen_starts fuel action s).
Proof.
  unfold run. destruct (String.eqb action "settings").
  - exists (hold (Some (effective (held s))) s). split; [now right |].
    destruct (show_settings_quiet fuel s) as [Hc Hp].
    split; [now left | exact Hp].
  - destruct (nonempty action).
    + exists s. split; [now left |]. split; [| apply paced_returned].
      apply open_file_opened, continues_refl.
    + apply show_files_menu_call.
Qed.

Lemma begun_answers (s s0 : session) :
  begun s s0 -> answers s0 = answers s /\ log s0 = log s.
Proof. intros [-> | ->]; now split. Qed.

(** X13: the settings menus change nothing and start nothing.  After a
    call of [run] with the action "settings", whatever the user selects in
    the settings menu and in the menu of the scan paths, the plugin holds
    the configuration it held before (the default one if it held none),
    the selections were taken in order, and the log grew only by menus
    and notifications: no process was started. *)
Theorem settings_change_nothing (fuel : nat) (s : session) :
  let s' := snd (run w home popen_starts fuel "settings" s) in
  held s' = Some (effective (held s))
  /\ (exists used, answers s = used ++ answers s')
  /\ (exists more, log s' = log s ++ more /\ silent more)
  /\ started (log s') = started (log s).
Proof.
  cbn. change (run w home popen_starts fuel "settings" s)
    with (_show_settings w fuel s).
  destruct (show_settings_quiet fuel s) as [Hcont _].
  pose proof (continues_started _ _ Hcont) as Hstarted.
  destruct Hcont as [Hheld [Hused Hmore]]. cbn in *.
  now repeat split.
Qed.

(** X14: every turn of a menu loop takes one selection.  With a step of
    fuel for every selection of the script and one more, a call of [run]
    does not use up its fuel, and when it waits at a menu every selection
    of the script has been used: no loop goes round without asking the
    user. *)
Theorem run_asks_every_turn (fuel : nat) (action : string) (s : session) :
  length (answers s) < fuel ->
  let r := run w home popen_starts fuel action s in
  fst r <> OutOfFuel /\ (fst r = Waiting -> answers (snd r) = []).
Proof.
  intros Hfuel r.
  destruct (run_call fuel action s) as [s0 [Hb [_ [Hf [_ Hw]]]]].
  destruct (begun_answers _ _ Hb) as [Ha _]. rewrite Ha in Hf.
  fold r in Hf, Hw. split; [now apply Hf | exact Hw].
Qed.

(** X15: a call of [run] opens at most one file, as its last act.  What
    it records is a sequence of menus and notifications, followed or not
    by one call of [subprocess.Popen], on [xdg-open] and a single path,
    after which the call returns; so the number of such calls grows by
    one at most. *)
Theorem run_opens_one_file_at_most (fuel : nat) (action : string)
  (s : session) :
  let r := run w home popen_starts fuel action s in
  (exists more,
     log (snd r) = log s ++ more
     /\ (silent more
         \/ exists before p,
              more = before ++ [Popen ["xdg-open"; p]]
              /\ silent before /\ fst r = Returned))
  /\ started (log (snd r)) <= started (log s) + 1.
Proof.
  intros r. destruct (run_call fuel action s) as [s0 [Hb [Hcall _]]].
  destruct (begun_answers _ _ Hb) as [_ Hlog]. fold r in Hcall.
  assert (Hmore : exists more,
             log (snd r) = log s ++ more
             /\ (silent more
                 \/ exists before p,
                      more = before ++ [Popen ["xdg-open"; p]]
                      /\ silent before /\ fst r = Returned)).
  { destruct Hcall as [[_ [_ [more [Hl Hs]]]] | [p [s1 [Hc [Hsnd Hfst]]]]].
    - exists more. rewrite Hl, Hlog. split; [reflexivity | now left].
    - destruct Hc as [_ [_ [before [Hl Hs]]]].
      exists (before ++ [Popen ["xdg-open"; p]]). rewrite Hsnd. cbn.
      rewrite Hl, Hlog, app_assoc. split; [reflexivity |].
      right. now exists before, p. }
  split; [exact Hmore |].
  destruct Hmore as [more [-> [Hs | [before [p [-> [Hs _]]]]]]];
    repeat rewrite started_app; rewrite (silent_started _ Hs); cbn; lia.
Qed.

(** X16: what the user picks in the files menu is what is opened.  When
    the next selection is an item of the menu shown, other than the one
    with the id "files:settings", and [xdg-open] can be started, the call
    shows one menu, starts [xdg-open] on the scanned path the item stands
    for, and returns, leaving the rest of the script alone. *)
Theorem picked_file_is_opened (fuel : nat) (s : session)
  (files : list string) (selected : MenuItem)
  (rest : list (option MenuItem)) :
  _scan_files (Some (effective (held s))) w = Ok files ->
  answers s = Some selected :: rest ->
  In selected (files_menu (map (file_item home) files)) ->
  item_id selected <> "files:settings" ->
  (forall p, popen_starts ["xdg-open"; p] = true) ->
  exists p,
    In p files
    /\ selected = file_item home p
    /\ run w home popen_starts (S fuel) "" s
       = (Returned,
          {| held := Some (effective (held s));
             answers := rest;
             log := log s
                    ++ [Menu "Files" (files_menu (map (file_item home) files));
                        Popen ["xdg-open"; p]] |}).
Proof.
  intros Hscan Hanswers Hin Hid Hstarts.
  assert (Hp : exists p, In p files /\ selected = file_item home p).
  { unfold files_menu in Hin. apply in_app_or in Hin.
    destruct Hin as [Hin | [<- | []]].
    - apply in_map_iff in Hin. destruct Hin as [p [<- Hin]]. now exists p.
    - now destruct Hid. }
  destruct Hp as [p [Hin' ->]]. exists p.
  split; [exact Hin' |]. split; [reflexivity |].
  assert (Hitems : _get_file_items home (held s) w
                   = (Some (effective (held s)),
                      Ok (map (file_item home) files))).
  { unfold _get_file_items.
    destruct (held s) as [cfg |]; cbn [effective] in *;
      now rewrite Hscan. }
  unfold run. cbn [String.eqb Ascii.eqb nonempty].
  cbn [_show_files_menu]. rewrite Hitems.
  unfold ctx_menu. cbn [hold answers]. rewrite Hanswers.
  destruct (String.eqb_spec (item_id (file_item home p)) "files:settings")
    as [Heq | _]; [now destruct Hid |].
  cbn [file_item item_metadata metadata_get].
  cbn [String.eqb Ascii.eqb Bool.eqb]. unfold _open_file.
  rewrite Hstarts. unfold record. cbn [held answers log hold].
  now rewrite <- app_assoc.
Qed.

End Sessions.

Lemma run_asks_every_turn_witness :
  length (answers srv_session) < 6
  /\ (let r := run srv_world "/home/u" (fun _ => true) 6 "" srv_session in
      fst r <> OutOfFuel /\ (fst r = Waiting -> answers (snd r) = [])).
Proof.
  split; [cbn; lia |].
  apply (run_asks_every_turn srv_world "/home/u" (fun _ => true) 6 ""
           srv_session).
  cbn. lia.
Defined.

Lemma picked_file_is_opened_witness :
  exists p,
    In p ["/srv/a/one.txt"; "/srv/a/two.md"; "/srv/a/sub/three.txt"]
    /\ file_item "/home/u" "/srv/a/two.md" = file_item "/home/u" p
    /\ run srv_world "/home/u" (fun _ => true) 1 "" pick_session
       = (Returned,
          {| held := Some srv_config;
             answers := [None];
             log :=
               [Menu "Files"
                  (files_menu
                     (map (file_item "/home/u")
                        ["/srv/a/one.txt"; "/srv/a/two.md";
                         "/srv/a/sub/three.txt"]));
                Popen ["xdg-open"; p]] |}).
Proof.
  apply (picked_file_is_opened srv_world "/home/u" (fun _ => true) 0
           pick_session
           ["/srv/a/one.txt"; "/srv/a/two.md"; "/srv/a/sub/three.txt"]
           (file_item "/home/u" "/srv/a/two.md") [None]).
  - reflexivity.
  - reflexivity.
  - cbn. right. left. reflexivity.
  - cbn. discriminate.
  - reflexivity.
Defined.

(** * Launching an application *)

Lemma index_item_entry (entries : list Apps.DesktopEntry) (item : MenuItem) :
  In item (Apps.index entries) ->
  exists entry,
    find (fun x => String.eqb (Apps.name x) (item_title item)) entries
    = Some entry
    /\ item = Apps.app_item entry.
Proof.
  intros Hin.
  assert (Hperm : Permutation (Apps.index entries)
                    (map Apps.app_item (Apps.first_by_name [] entries))).
  { unfold Apps.index. rewrite index_loop_first. cbn [app].
    apply sort_by_Permutation. }
  apply (Permutation_in item Hperm) in Hin.
  apply in_map_iff in Hin. destruct Hin as [e [<- He]].
  exists e. split; [| reflexivity].
  exact (first_by_name_wins entries [] e He).
Qed.

Lemma has_prefix_app (prefix s : string) :
  has_prefix prefix (prefix ++ s) = true.
Proof.
  induction prefix as [| a prefix IH]; [reflexivity |].
  cbn. now rewrite Ascii.eqb_refl, IH.
Qed.

(** X17: what the applications menu shows is what gets launched.  Every
    item of the index stands for the first scanned entry of its title,
    under the id "apps:" followed by the lower-cased name with spaces
    replaced.  Selecting the item in the menu of [run] executes the
    command of that entry with its terminal flag.  When the database of
    the host returns the item for its id and the command is not empty, a
    call of [run] with the id as action does the same without showing a
    menu, and so does [_launch_app] with the id stripped of "apps:",
    provided what is left does not itself start with "apps:". *)
Theorem indexed_app_is_launched (l : Apps.launcher)
  (get_item : string -> option MenuItem)
  (entries : list Apps.DesktopEntry) (item : MenuItem) :
  In item (Apps.index entries) ->
  exists entry,
    find (fun x => String.eqb (Apps.name x) (item_title item)) entries
    = Some entry
    /\ item_id item = ("apps:" ++ Apps.slug entry)%string
    /\ (forall menu,
          menu (Apps.index entries) = Some item ->
          Apps.run l get_item menu entries ""
          = (Some (Apps.index entries),
             Apps.launch_of
               (Apps._execute l (Apps.exec_cmd entry)
                  (Apps.terminal entry))))
    /\ (get_item (item_id item) = Some item ->
        Apps.exec_cmd entry <> EmptyString ->
        (forall menu,
           Apps.run l get_item menu entries (item_id item)
           = (None,
              Apps.launch_of
                (Apps._execute l (Apps.exec_cmd entry)
                   (Apps.terminal entry))))
        /\ (has_prefix "apps:" (Apps.slug entry) = false ->
            Apps._launch_app l get_item (Apps.slug entry)
            = Apps.launch_of
                (Apps._execute l (Apps.exec_cmd entry)
                   (Apps.terminal entry)))).
Proof.
  intros Hin. destruct (index_item_entry entries item Hin) as [e [Hfind ->]].
  exists e. split; [exact Hfind |]. split; [reflexivity |].
  assert (Hlaunch : forall app_id,
             get_item (if has_prefix "apps:" app_id then app_id
                       else ("apps:" ++ app_id)%string)
             = Some (Apps.app_item e) ->
             Apps.exec_cmd e <> EmptyString ->
             Apps._launch_app l get_item app_id
             = Apps.launch_of
                 (Apps._execute l (Apps.exec_cmd e) (Apps.terminal e))).
  { intros app_id Hget Hexec. unfold Apps._launch_app. rewrite Hget.
    cbn. destruct (Apps.exec_cmd e); [now destruct Hexec | reflexivity]. }
  split.
  - intros menu Hmenu. unfold Apps.run. cbn [nonempty]. rewrite Hmenu.
    reflexivity.
  - intros Hget Hexec. split.
    + intros menu. unfold Apps.run.
      cbn [Apps.app_item item_id append nonempty].
      f_equal. apply Hlaunch; [| exact Hexec].
      change ("apps:" ++ Apps.slug e)%string
        with (item_id (Apps.app_item e)).
      replace (has_prefix "apps:" (item_id (Apps.app_item e))) with true.
      * exact Hget.
      * symmetry. apply (has_prefix_app "apps:").
    + intros Hslug. apply Hlaunch; [| exact Hexec].
      rewrite Hslug. exact Hget.
Qed.

Lemma indexed_app_is_launched_witness :
  exists entry,
    find (fun x => String.eqb (Apps.name x) "Text Editor") [editor_entry]
    = Some entry
    /\ item_id (Apps.app_item editor_entry)
       = ("apps:" ++ Apps.slug entry)%string
    /\ Apps.run xterm_launcher editor_database (fun items => hd_error items)
         [editor_entry] ""
       = (Some (Apps.index [editor_entry]),
          Apps.launch_of
            (Apps._execute xterm_launcher (Apps.exec_cmd entry)
               (Apps.terminal entry)))
    /\ Apps._launch_app xterm_launcher editor_database "text_editor"
       = Apps.launch_of
           (Apps._execute xterm_launcher (Apps.exec_cmd entry)
              (Apps.terminal entry)).
Proof.
  destruct (indexed_app_is_launched xterm_launcher editor_database
              [editor_entry] (Apps.app_item editor_entry)
              ltac:(cbn; left; reflexivity))
    as [entry [Hfind [Hid [Hmenu Hlaunch]]]].
  exists entry. split; [exact Hfind |]. split; [exact Hid |].
  split; [apply Hmenu; reflexivity |].
  assert (Hentry : entry = editor_entry).
  { cbn in Hfind. now inversion Hfind. }
  destruct (Hlaunch eq_refl) as [_ Hslug].
  - rewrite Hentry. discriminate.
  - rewrite Hentry in Hslug |- *. exact (Hslug eq_refl).
Defined.

(** * The scan of the desktop files *)

Lemma find_append {B : Type} (p : B -> bool) (l1 l2 : list B) :
  find p (l1 ++ l2)
  = match find p l1 with
    | Some e => Some e
    | None => find p l2
    end.
Proof.
  induction l1 as [| b l1 IH]; [reflexivity |].
  cbn. destruct (p b); [reflexivity | exact IH].
Qed.

Lemma find_flat_map {A B : Type} (p : B -> bool) (f : A -> list B)
  (l : list A) (e : B) :
  find p (flat_map f l) = Some e ->
  exists before x after,
    l = before ++ x :: after
    /\ find p (f x) = Some e
    /\ (forall y z, In y before -> In z (f y) -> p z = false).
Proof.
  induction l as [| x l IH]; [discriminate |].
  cbn [flat_map]. rewrite find_append. intros Hfind.
  destruct (find p (f x)) as [e' |] eqn:Hx.
  - exists [], x, l. split; [reflexivity |]. split; [congruence |].
    intros y z [].
  - destruct (IH Hfind) as [before [y [after [-> [Hy Hbefore]]]]].
    exists (x :: before), y, after. split; [reflexivity |].
    split; [exact Hy |].
    intros y' z [<- | Hin] Hz.
    + exact (find_none _ _ Hx z Hz).
    + now apply (Hbefore y' z).
Qed.

(** X18: the first directory wins.  The directories are scanned in the
    order /usr/share/applications, /usr/local/share/applications, the
    one of the user under the home directory, then those of
    [XDG_DATA_DIRS]; every item of the menu is built from an entry read
    in some scanned directory, and no directory scanned before that one
    holds an entry of the same name.  So an entry of
    /usr/share/applications is never replaced by one of the same name in
    a later directory, the one of the user included. *)
Theorem first_directory_wins (d : Apps.desktop) (item : MenuItem) :
  In item (Apps.index (Apps._scan_desktop_files d)) ->
  exists before dir after entry,
    Apps.app_dirs d = before ++ dir :: after
    /\ In entry (Apps.dir_entries d dir)
    /\ item = Apps.app_item entry
    /\ (forall dir' entry',
          In dir' before -> In entry' (Apps.dir_entries d dir') ->
          Apps.name entry' <> item_title item)
    /\ ((exists entry',
           In entry' (Apps.dir_entries d "/usr/share/applications")
           /\ Apps.name entry' = item_title item) ->
        In entry (Apps.dir_entries d "/usr/share/applications")).
Proof.
  intros Hin.
  destruct (index_item_entry _ _ Hin) as [entry [Hfind ->]].
  unfold Apps._scan_desktop_files in Hfind.
  destruct (find_flat_map _ _ _ _ Hfind)
    as [before [dir [after [Hdirs [Hdir Hbefore]]]]].
  exists before, dir, after, entry.
  split; [exact Hdirs |].
  split; [exact (proj1 (find_some _ _ Hdir)) |].
  split; [reflexivity |].
  assert (Hearlier : forall dir' entry',
             In dir' before -> In entry' (Apps.dir_entries d dir') ->
             Apps.name entry' <> item_title (Apps.app_item entry)).
  { intros dir' entry' Hd He Heq.
    pose proof (Hbefore dir' entry' Hd He) as Hno. cbn beta in Hno.
    rewrite Heq, String.eqb_refl in Hno. discriminate. }
  split; [exact Hearlier |].
  intros [entry' [He' Hname]].
  destruct before as [| first before'].
  - unfold Apps.app_dirs in Hdirs. cbn [app] in Hdirs.
    inversion Hdirs as [[Hfirst Hrest]]. rewrite Hfirst.
    exact (proj1 (find_some _ _ Hdir)).
  - unfold Apps.app_dirs in Hdirs. cbn [app] in Hdirs.
    inversion Hdirs as [[Hfirst Hrest]].
    destruct (Hearlier first entry' (or_introl eq_refl)).
    + rewrite <- Hfirst. exact He'.
    + exact Hname.
Qed.

Lemma first_directory_wins_witness :
  exists before dir after entry,
    Apps.app_dirs override_desktop = before ++ dir :: after
    /\ In entry (Apps.dir_entries override_desktop dir)
    /\ Apps.app_item
         {| Apps.name := "Editor";
            Apps.exec_cmd := "edit %F";
            Apps.icon := None;
            Apps.comment := None;
            Apps.terminal := true;
            Apps.path := Some "/usr/share/applications/editor.desktop" |}
       = Apps.app_item entry
    /\ In entry (Apps.dir_entries override_desktop "/usr/share/applications").
Proof.
  destruct (first_directory_wins override_desktop
              (Apps.app_item
                 {| Apps.name := "Editor";
                    Apps.exec_cmd := "edit %F";
                    Apps.icon := None;
                    Apps.comment := None;
                    Apps.terminal := true;
                    Apps.path :=
                      Some "/usr/share/applications/editor.desktop" |})
              ltac:(cbn; left; reflexivity))
    as [before [dir [after [entry [Hdirs [Hentry [Hitem [_ Hsys]]]]]]]].
  exists before, dir, after, entry.
  split; [exact Hdirs |]. split; [exact Hentry |]. split; [exact Hitem |].
  apply Hsys. eexists. split; [cbn; left; reflexivity | reflexivity].
Defined.

(** * The checksum of a plugin directory *)

Section PathOrder.

Lemma ascii_compare_refl (a : ascii) : Ascii.compare a a = Eq.
Proof. unfold Ascii.compare. apply N.compare_refl. Qed.

Lemma ascii_compare_trans (a b c : ascii) :
  Ascii.compare a b = Lt -> Ascii.compare b c = Lt ->
  Ascii.compare a c = Lt.
Proof.
  unfold Ascii.compare. rewrite !N.compare_lt_iff. apply N.lt_trans.
Qed.

Lemma string_compare_refl (s : string) : String.compare s s = Eq.
Proof.
  induction s as [| a s IH]; [reflexivity |].
  cbn. now rewrite ascii_compare_refl.
Qed.

Lemma string_compare_trans (a : string) :
  forall b c,
    String.compare a b = Lt -> String.compare b c = Lt ->
    String.compare a c = Lt.
Proof.
  induction a as [| x a IH]; intros [| y b] [| z c]; cbn;
    try discriminate; try reflexivity.
  destruct (Ascii.compare x y) eqn:Hxy; try discriminate;
    destruct (Ascii.compare y z) eqn:Hyz; try discriminate; intros Hab Hbc.
  - apply Ascii.compare_eq_iff in Hxy, Hyz. subst.
    rewrite ascii_compare_refl. now apply (IH b c).
  - apply Ascii.compare_eq_iff in Hxy. subst. now rewrite Hyz.
  - apply Ascii.compare_eq_iff in Hyz. subst. now rewrite Hxy.
  - now rewrite (ascii_compare_trans x y z).
Qed.

Lemma lex_compare_eq (a : list string) :
  forall b, BuildIndex.lex_compare String.compare a b = Eq -> a = b.
Proof.
  induction a as [| x a IH]; intros [| y b]; cbn; try discriminate;
    [reflexivity |].
  destruct (String.compare x y) eqn:Hxy; try discriminate.
  intros Hab. apply String.compare_eq_iff in Hxy. subst.
  now rewrite (IH b Hab).
Qed.

Lemma lex_compare_refl (a : list string) :
  BuildIndex.lex_compare String.compare a a = Eq.
Proof.
  induction a as [| x a IH]; [reflexivity |].
  cbn. now rewrite string_compare_refl.
Qed.

Lemma lex_compare_antisym (a : list string) :
  forall b,
    BuildIndex.lex_compare String.compare a b
    = CompOpp (BuildIndex.lex_compare String.compare b a).
Proof.
  induction a as [| x a IH]; intros [| y b]; cbn; try reflexivity.
  rewrite (String.compare_antisym x y).
  destruct (String.compare y x); cbn; [apply IH | reflexivity | reflexivity].
Qed.

Lemma lex_compare_trans (a : list string) :
  forall b c,
    BuildIndex.lex_compare String.compare a b = Lt ->
    BuildIndex.lex_compare String.compare b c = Lt ->
    BuildIndex.lex_compare String.compare a c = Lt.
Proof.
  induction a as [| x a IH]; intros [| y b] [| z c]; cbn;
    try discriminate; try reflexivity.
  destruct (String.compare x y) eqn:Hxy; try discriminate;
    destruct (String.compare y z) eqn:Hyz; try discriminate; intros Hab Hbc.
  - apply String.compare_eq_iff in Hxy, Hyz. subst.
    rewrite string_compare_refl. now apply (IH b c).
  - apply String.compare_eq_iff in Hxy. subst. now rewrite Hyz.
  - apply String.compare_eq_iff in Hyz. subst. now rewrite Hxy.
  - now rewrite (string_compare_trans x y z).
Qed.

Lemma path_leb_total (a b : BuildIndex.found) :
  BuildIndex.path_leb a b = true \/ BuildIndex.path_leb b a = true.
Proof.
  unfold BuildIndex.path_leb.
  rewrite (lex_compare_antisym (BuildIndex.found_path a)).
  destruct (BuildIndex.lex_compare String.compare (BuildIndex.found_path b)
              (BuildIndex.found_path a)); cbn; auto.
Qed.

Lemma path_leb_antisym (a b : BuildIndex.found) :
  BuildIndex.path_leb a b = true -> BuildIndex.path_leb b a = true ->
  BuildIndex.found_path a = BuildIndex.found_path b.
Proof.
  unfold BuildIndex.path_leb.
  rewrite (lex_compare_antisym (BuildIndex.found_path b)).
  destruct (BuildIndex.lex_compare String.compare (BuildIndex.found_path a)
              (BuildIndex.found_path b)) eqn:Hab; cbn; try discriminate.
  intros _ _. now apply lex_compare_eq.
Qed.

Lemma path_leb_trans (a b c : BuildIndex.found) :
  BuildIndex.path_leb a b = true -> BuildIndex.path_leb b c = true ->
  BuildIndex.path_leb a c = true.
Proof.
  unfold BuildIndex.path_leb.
  destruct (BuildIndex.lex_compare String.compare (BuildIndex.found_path a)
              (BuildIndex.found_path b)) eqn:Hab; try discriminate;
    destruct (BuildIndex.lex_compare String.compare (BuildIndex.found_path b)
                (BuildIndex.found_path c)) eqn:Hbc; try discriminate;
    intros _ _.
  - apply lex_compare_eq in Hab. rewrite Hab, Hbc. reflexivity.
  - apply lex_compare_eq in Hab. rewrite Hab, Hbc. reflexivity.
  - apply lex_compare_eq in Hbc. rewrite <- Hbc, Hab. reflexivity.
  - now rewrite (lex_compare_trans _ _ _ Hab Hbc).
Qed.

Lemma insert_path_Permutation (x : BuildIndex.found)
  (l : list BuildIndex.found) :
  Permutation (BuildIndex.insert_path x l) (x :: l).
Proof.
  induction l as [| y l IH]; cbn; [reflexivity |].
  destruct (BuildIndex.path_leb x y); [reflexivity |].
  rewrite IH. apply perm_swap.
Qed.

Lemma sorted_Permutation (l : list BuildIndex.found) :
  Permutation (BuildIndex.sorted l) l.
Proof.
  induction l as [| x l IH]; cbn; [reflexivity |].
  rewrite insert_path_Permutation. now constructor.
Qed.

Lemma insert_path_sorted (x : BuildIndex.found)
  (l : list BuildIndex.found) :
  StronglySorted (fun a b => BuildIndex.path_leb a b = true) l ->
  StronglySorted (fun a b => BuildIndex.path_leb a b = true)
    (BuildIndex.insert_path x l).
Proof.
  induction 1 as [| y l Hl IH Hy]; cbn.
  - constructor; constructor.
  - destruct (BuildIndex.path_leb x y) eqn:Hxy.
    + constructor; [now constructor |].
      constructor; [exact Hxy |].
      eapply Forall_impl; [| exact Hy].
      intros z Hz. now apply (path_leb_trans x y z).
    + constructor; [exact IH |].
      apply (Permutation_Forall
               (Permutation_sym (insert_path_Permutation x l))).
      constructor; [| exact Hy].
      destruct (path_leb_total x y) as [H | H]; [congruence | exact H].
Qed.

Lemma sorted_StronglySorted (l : list BuildIndex.found) :
  StronglySorted (fun a b => BuildIndex.path_leb a b = true)
    (BuildIndex.sorted l).
Proof.
  induction l as [| x l IH]; cbn; [constructor |].
  now apply insert_path_sorted.
Qed.

(** Two sorted listings of the same paths, no path twice, are one. *)
Lemma sorted_unique (l1 : list BuildIndex.found) :
  forall l2,
    Permutation l1 l2 ->
    NoDup (map BuildIndex.found_path l1) ->
    StronglySorted (fun a b => BuildIndex.path_leb a b = true) l1 ->
    StronglySorted (fun a b => BuildIndex.path_leb a b = true) l2 ->
    l1 = l2.
Proof.
  induction l1 as [| x l1 IH]; intros l2 Hperm Hnodup Hs1 Hs2.
  - apply Permutation_nil in Hperm. now subst.
  - destruct l2 as [| y l2].
    { apply Permutation_sym, Permutation_nil in Hperm. discriminate. }
    inversion Hs1 as [| ? ? Hs1' Hx]; subst.
    inversion Hs2 as [| ? ? Hs2' Hy]; subst.
    assert (Hxy : x = y).
    { assert (Hyin : In y (x :: l1)).
      { apply (Permutation_in y (Permutation_sym Hperm)). now left. }
      assert (Hxin : In x (y :: l2)).
      { apply (Permutation_in x Hperm). now left. }
      destruct Hyin as [Heq | Hyin]; [exact Heq |].
      destruct Hxin as [Heq | Hxin]; [now symmetry |].
      rewrite Forall_forall in Hx, Hy.
      pose proof (path_leb_antisym x y (Hx y Hyin) (Hy x Hxin)) as Hpath.
      inversion Hnodup as [| ? ? Hnotin _]; subst.
      destruct Hnotin. rewrite Hpath. now apply in_map. }
    subst y. f_equal. apply IH.
    + now apply Permutation_cons_inv in Hperm.
    + now inversion Hnodup.
    + exact Hs1'.
    + exact Hs2'.
Qed.

End PathOrder.

(** X19: the checksum of a plugin directory does not depend on the
    order in which the file system lists it.  Two listings of the same
    entries, in which no path occurs twice, give the same result with
    every hash object: the same digest, or the same exception of the
    first file, in the order of the paths, that cannot be read. *)
Theorem checksum_ignores_listing_order (hasher : Type) (sha256 : hasher)
  (update : hasher -> string -> hasher) (hexdigest : hasher -> string)
  (rglob rglob' : list BuildIndex.found) :
  Permutation rglob rglob' ->
  NoDup (map BuildIndex.found_path rglob) ->
  BuildIndex.compute_checksum hasher sha256 update hexdigest rglob
  = BuildIndex.compute_checksum hasher sha256 update hexdigest rglob'.
Proof.
  intros Hperm Hnodup. unfold BuildIndex.compute_checksum.
  replace (BuildIndex.sorted rglob') with (BuildIndex.sorted rglob);
    [reflexivity |].
  apply sorted_unique.
  - rewrite sorted_Permutation, Hperm. symmetry. apply sorted_Permutation.
  - apply (Permutation_NoDup (l := map BuildIndex.found_path rglob));
      [| exact Hnodup].
    apply Permutation_map. symmetry. apply sorted_Permutation.
  - apply sorted_StronglySorted.
  - apply sorted_StronglySorted.
Qed.

Lemma checksum_ignores_listing_order_witness :
  BuildIndex.compute_checksum string EmptyString append (fun h => h)
    plugin_listing
  = BuildIndex.compute_checksum string EmptyString append (fun h => h)
      plugin_listing_again.
Proof.
  apply (checksum_ignores_listing_order string EmptyString append
           (fun h => h) plugin_listing plugin_listing_again).
  - unfold plugin_listing, plugin_listing_again.
    apply Permutation_sym, Permutation_cons_app with (l1 := [_; _]).
    reflexivity.
  - cbn. repeat constructor; cbn; intuition discriminate.
Defined.

(** * What every returned path looks like *)

Section KeptEntries.

Variable cfg : FilesConfig.

Lemma visit_files_entries (root : string) (files acc : list string) :
  Forall name_ok files -> Forall (kept_entry cfg) acc ->
  Forall (kept_entry cfg) (flow_list (visit_files cfg root files acc)).
Proof.
  revert acc. induction files as [| name rest IH]; intros acc Hnames Hacc;
    [exact Hacc |].
  inversion Hnames as [| ? ? Hname Hrest]; subst.
  cbn [visit_files]. destruct (keep_file cfg name) eqn:Hkeep;
    [| now apply IH].
  assert (Hnew : Forall (kept_entry cfg) (acc ++ [os_path_join root name])).
  { apply Forall_app. split; [exact Hacc |]. constructor; [| constructor].
    apply keep_file_iff in Hkeep. destruct Hkeep as [Hvis Hext].
    now exists root, name. }
  destruct (_ >=? _)%Z; [exact Hnew | now apply IH].
Qed.

Lemma walk_entries (path : string) (node : dirnode) :
  forall root acc,
    wf_tree node -> Forall (kept_entry cfg) acc ->
    Forall (kept_entry cfg) (flow_list (walk cfg path root node acc)).
Proof.
  induction node as [| files dirs IH] using dirnode_tree_ind;
    intros root acc Hwf Hacc; [exact Hacc |].
  cbn [walk]. destruct (too_deep cfg path root); [exact Hacc |].
  apply wf_tree_listing in Hwf. destruct Hwf as [_ [Hnames Hsubs]].
  rewrite Forall_app in Hnames. destruct Hnames as [Hfiles _].
  pose proof (visit_files_entries root files acc Hfiles Hacc) as Hvisit.
  destruct (visit_files cfg root files acc) as [acc' | r]; [| exact Hvisit].
  cbn [flow_list] in Hvisit. revert acc' Hvisit. clear Hfiles.
  induction IH as [| [d sub] rest Hhead _ IHrest]; intros acc' Hacc';
    [exact Hacc' |].
  inversion Hsubs as [| ? ? Hsub Hsubs']; subst.
  cbn [descend]. destruct (keep_dir cfg d); [| now apply IHrest].
  cbn [snd] in Hhead, Hsub.
  pose proof (Hhead (os_path_join root d) acc' Hsub Hacc') as Hwalk.
  destruct (walk cfg path (os_path_join root d) sub acc'); [| exact Hwalk].
  now apply IHrest.
Qed.

Lemma python_roots_entries (w : world) (paths acc : list string) :
  (forall scan_path node,
     lookup w (expanduser w scan_path) = Some node -> wf_tree node) ->
  Forall (kept_entry cfg) acc ->
  Forall (kept_entry cfg) (python_roots cfg w paths acc).
Proof.
  intros Hwf. revert acc.
  induction paths as [| scan_path rest IH]; intros acc Hacc; [exact Hacc |].
  cbn [python_roots].
  destruct (lookup w (expanduser w scan_path)) as [node |] eqn:Hlook;
    [| now apply IH].
  pose proof (walk_entries (expanduser w scan_path) node
                (expanduser w scan_path) acc (Hwf _ _ Hlook) Hacc) as Hwalk.
  destruct (walk cfg _ _ node acc); [now apply IH | exact Hwalk].
Qed.

(** The name [pathlib] reads off such a path is the name of the entry. *)
Lemma kept_entry_path (p : string) : kept_entry cfg p -> kept_path cfg p.
Proof.
  intros [dir [name [-> [Hok [Hvis Hext]]]]]. unfold kept_path.
  now rewrite (path_name_join dir name Hok Hvis).
Qed.

Lemma scan_with_python_entries (w : world) (result : list string) :
  (forall scan_path node,
     lookup w (expanduser w scan_path) = Some node -> wf_tree node) ->
  _scan_with_python (Some cfg) w = Ok result ->
  Forall (kept_entry cfg) result.
Proof.
  intros Hwf H. unfold _scan_with_python in H. inversion H as [Hres].
  apply python_roots_entries; [exact Hwf | constructor].
Qed.


End KeptEntries.

(** The trees of [srv_world] are well formed. *)
Lemma srv_world_wf (scan_path : string) (node : dirnode) :
  lookup srv_world (expanduser srv_world scan_path) = Some node ->
  wf_tree node.
Proof.
  cbn. destruct (String.eqb scan_path "/srv/a");
    [| destruct (String.eqb scan_path "/srv/b")];
    intros H; inversion H; subst; cbn;
    repeat split;
    repeat (constructor; cbn; try (intuition discriminate));
    try discriminate.
Qed.

(** X2: on a file system whose entries have valid names, whatever the
    cap, the name of every path the walker returns, as [Path(p).name]
    reads it, does not start with a dot and, when the extension list is
    not empty, has an extension that is an entry of the list. *)
Theorem walker_returns_kept_paths (cfg : FilesConfig) (w : world)
  (result : list string) :
  (forall scan_path node,
     lookup w (expanduser w scan_path) = Some node -> wf_tree node) ->
  _scan_with_python (Some cfg) w = Ok result ->
  Forall (kept_path cfg) result.
Proof.
  intros Hwf Hscan.
  eapply Forall_impl; [apply kept_entry_path |].
  now apply (scan_with_python_entries cfg w).
Qed.

Lemma walker_returns_kept_paths_witness :
  Forall (kept_path txt_config)
    ["/srv/a/one.txt"; "/srv/a/sub/three.txt"; "/srv/b/four.txt"].
Proof.
  exact (walker_returns_kept_paths txt_config srv_world _ srv_world_wf
           eq_refl).
Defined.



(** * Roots that do not resolve *)

Section ProbedRoots.

Variable cfg : FilesConfig.
Variable h : host.

(** Where every root resolves the scan is the one of the environment the
    host shows. *)
Lemma probe_python_roots_resolved (paths : list string) :
  Forall (resolves h) paths ->
  forall acc,
    Probe.python_roots cfg h paths acc
    = Ok (python_roots cfg (world_of h) paths acc).
Proof.
  induction 1 as [| scan_path rest [path [found [Hpath Hfound]]] _ IH];
    intros acc; [reflexivity |].
  cbn [Probe.python_roots python_roots world_of expanduser lookup].
  rewrite Hpath, Hfound. destruct found as [node |]; [| apply IH].
  destruct (walk cfg path path node acc); [apply IH | reflexivity].
Qed.

Lemma probe_fd_roots_resolved (paths : list string) :
  Forall (resolves h) paths ->
  forall acc,
    Probe.fd_roots cfg h paths acc = Ok (fd_roots cfg (world_of h) paths acc).
Proof.
  induction 1 as [| scan_path rest [path [found [Hpath Hfound]]] _ IH];
    intros acc; [reflexivity |].
  cbn [Probe.fd_roots fd_roots world_of expanduser lookup subprocess_run].
  rewrite Hpath, Hfound. destruct found as [node |]; [| apply IH].
  destruct (host_subprocess_run h (fd_cmd cfg path))
    as [[returncode stdout] | e]; [| apply IH].
  destruct (_ >=? _)%Z; [reflexivity | apply IH].
Qed.

(** An exception that leaves the loop is the one [expanduser] or
    [exists] raised for a configured root. *)
Lemma probe_python_roots_raise (paths : list string) (e : exn) :
  forall acc,
    Probe.python_roots cfg h paths acc = Raise e ->
    exists scan_path,
      In scan_path paths
      /\ (host_expanduser h scan_path = Raise e
          \/ exists path,
               host_expanduser h scan_path = Ok path
               /\ host_exists h path = Raise e).
Proof.
  induction paths as [| scan_path rest IH]; intros acc Hraise;
    [discriminate |].
  cbn [Probe.python_roots] in Hraise.
  assert (Hrest : forall acc',
             Probe.python_roots cfg h rest acc' = Raise e ->
             exists sp,
               In sp (scan_path :: rest)
               /\ (host_expanduser h sp = Raise e
                   \/ exists path,
                        host_expanduser h sp = Ok path
                        /\ host_exists h path = Raise e)).
  { intros acc' H'. destruct (IH acc' H') as [sp [Hin Hsp]].
    exists sp. split; [now right | exact Hsp]. }
  destruct (host_expanduser h scan_path) as [path | e'] eqn:Hpath.
  - destruct (host_exists h path) as [[node |] | e'] eqn:Hfound.
    + destruct (walk cfg path path node acc) as [acc' | r];
        [now apply (Hrest acc') | discriminate].
    + now apply (Hrest acc).
    + inversion Hraise; subst. exists scan_path. split; [now left |].
      right. now exists path.
  - inversion Hraise; subst. exists scan_path. split; [now left | now left].
Qed.

Lemma probe_fd_roots_raise (paths : list string) (e : exn) :
  forall acc,
    Probe.fd_roots cfg h paths acc = Raise e ->
    exists scan_path,
      In scan_path paths
      /\ (host_expanduser h scan_path = Raise e
          \/ exists path,
               host_expanduser h scan_path = Ok path
               /\ host_exists h path = Raise e).
Proof.
  induction paths as [| scan_path rest IH]; intros acc Hraise;
    [discriminate |].
  cbn [Probe.fd_roots] in Hraise.
  assert (Hrest : forall acc',
             Probe.fd_roots cfg h rest acc' = Raise e ->
             exists sp,
               In sp (scan_path :: rest)
               /\ (host_expanduser h sp = Raise e
                   \/ exists path,
                        host_expanduser h sp = Ok path
                        /\ host_exists h path = Raise e)).
  { intros acc' H'. destruct (IH acc' H') as [sp [Hin Hsp]].
    exists sp. split; [now right | exact Hsp]. }
  destruct (host_expanduser h scan_path) as [path | e'] eqn:Hpath.
  - destruct (host_exists h path) as [[node |] | e'] eqn:Hfound.
    + destruct (host_subprocess_run h (fd_cmd cfg path))
        as [[returncode stdout] | e']; [| now apply (Hrest acc)].
      destruct (_ >=? _)%Z; [discriminate |].
      now apply (Hrest _ Hraise).
    + now apply (Hrest acc).
    + inversion Hraise; subst. exists scan_path. split; [now left |].
      right. now exists path.
  - inversion Hraise; subst. exists scan_path. split; [now left | now left].
Qed.

(** A root at whose path nothing exists is passed over. *)
Lemma probe_python_roots_absent (paths : list string) :
  forall acc,
    Probe.python_roots cfg h paths acc
    = Probe.python_roots cfg h
        (filter (fun scan_path => negb (absent h scan_path)) paths) acc.
Proof.
  induction paths as [| scan_path rest IH]; intros acc; [reflexivity |].
  cbn [filter]. unfold absent at 1.
  destruct (host_expanduser h scan_path) as [path | e] eqn:Hpath;
    cbn [negb Probe.python_roots]; rewrite ?Hpath; [| reflexivity].
  destruct (host_exists h path) as [[node |] | e] eqn:Hfound;
    cbn [negb Probe.python_roots]; rewrite ?Hpath, ?Hfound;
    [| apply IH | reflexivity].
  destruct (walk cfg path path node acc); [apply IH | reflexivity].
Qed.

Lemma probe_fd_roots_absent (paths : list string) :
  forall acc,
    Probe.fd_roots cfg h paths acc
    = Probe.fd_roots cfg h
        (filter (fun scan_path => negb (absent h scan_path)) paths) acc.
Proof.
  induction paths as [| scan_path rest IH]; intros acc; [reflexivity |].
  cbn [filter]. unfold absent at 1.
  destruct (host_expanduser h scan_path) as [path | e] eqn:Hpath;
    cbn [negb Probe.fd_roots]; rewrite ?Hpath; [| reflexivity].
  destruct (host_exists h path) as [[node |] | e] eqn:Hfound;
    cbn [negb Probe.fd_roots]; rewrite ?Hpath, ?Hfound;
    [| apply IH | reflexivity].
  destruct (host_subprocess_run h (fd_cmd cfg path))
    as [[returncode stdout] | e]; [| apply IH].
  destruct (_ >=? _)%Z; [reflexivity | apply IH].
Qed.

(** Under a positive cap a root on which the utility raises, times out
    or exits with a status other than zero contributes nothing, and the
    scan is the one of the other roots. *)
Lemma probe_fd_roots_failure (scan_path path : string) (node : dirnode)
  (before after : list string) :
  host_expanduser h scan_path = Ok path ->
  host_exists h path = Ok (Some node) ->
  (forall returncode stdout,
     host_subprocess_run h (fd_cmd cfg path) = Ok (returncode, stdout) ->
     returncode <> 0%Z) ->
  forall acc,
    (Z.of_nat (length acc) < max_files cfg)%Z ->
    Probe.fd_roots cfg h (before ++ scan_path :: after) acc
    = Probe.fd_roots cfg h (before ++ after) acc.
Proof.
  intros Hpath Hfound Hfails.
  induction before as [| sp before IH]; intros acc Hroom.
  - cbn [app Probe.fd_roots]. rewrite Hpath, Hfound.
    destruct (host_subprocess_run h (fd_cmd cfg path))
      as [[returncode stdout] | e] eqn:Hrun; [| reflexivity].
    destruct (Z.eqb_spec returncode 0) as [Hzero | _];
      [now destruct (Hfails _ _ eq_refl) |].
    destruct (Z.geb_spec (Z.of_nat (length acc)) (max_files cfg));
      [lia | reflexivity].
  - cbn [app Probe.fd_roots].
    destruct (host_expanduser h sp) as [p |]; [| reflexivity].
    destruct (host_exists h p) as [[n |] |]; [| now apply IH | reflexivity].
    destruct (host_subprocess_run h (fd_cmd cfg p))
      as [[returncode stdout] | e]; [| now apply IH].
    destruct (Z.geb_spec
                (Z.of_nat
                   (length (if (returncode =? 0)%Z
                            then acc ++ parse_stdout stdout else acc)))
                (max_files cfg)); [reflexivity | now apply IH].
Qed.

End ProbedRoots.

(** The scan of an environment in which every root resolves. *)
Lemma probe_host_of (config : option FilesConfig) (w : world) :
  Probe._scan_with_python config (host_of w) = _scan_with_python config w
  /\ Probe._scan_with_fd config (host_of w) = _scan_with_fd config w
  /\ Probe._scan_files config (host_of w) = _scan_files config w.
Proof.
  assert (Hworld : world_of (host_of w) = w) by now destruct w.
  assert (Hres : forall paths, Forall (resolves (host_of w)) paths).
  { intros paths. apply Forall_forall. intros scan_path _.
    now exists (expanduser w scan_path), (lookup w (expanduser w scan_path)). }
  assert (Hpy : Probe._scan_with_python config (host_of w)
                = _scan_with_python config w).
  { destruct config as [cfg |]; [| reflexivity]. cbn.
    rewrite (probe_python_roots_resolved cfg (host_of w) _ (Hres _)).
    now rewrite Hworld. }
  assert (Hfd : Probe._scan_with_fd config (host_of w)
                = _scan_with_fd config w).
  { destruct config as [cfg |]; [| reflexivity]. cbn.
    rewrite (probe_fd_roots_resolved cfg (host_of w) _ (Hres _)).
    now rewrite Hworld. }
  split; [exact Hpy |]. split; [exact Hfd |].
  unfold Probe._scan_files, _scan_files, _has_fd.
  destruct config as [cfg |]; [| reflexivity].
  cbn [host_of host_which_fd]. now destruct (which_fd w).
Qed.

(** A scan raises only what resolving a configured root raised, and
    returns a list when every root resolves. *)
Lemma probe_scan_files_raise (cfg : FilesConfig) (h : host) (e : exn) :
  Probe._scan_files (Some cfg) h = Raise e ->
  exists scan_path,
    In scan_path (scan_paths cfg)
    /\ (host_expanduser h scan_path = Raise e
        \/ exists path,
             host_expanduser h scan_path = Ok path
             /\ host_exists h path = Raise e).
Proof.
  unfold Probe._scan_files, Probe._scan_with_fd, Probe._scan_with_python.
  destruct (host_which_fd h).
  - apply probe_fd_roots_raise.
  - apply probe_python_roots_raise.
Qed.

Lemma probe_scan_files_returns (cfg : FilesConfig) (h : host) :
  Forall (resolves h) (scan_paths cfg) ->
  exists result, Probe._scan_files (Some cfg) h = Ok result.
Proof.
  intros Hres.
  destruct (Probe._scan_files (Some cfg) h) as [result | e] eqn:Hscan;
    [now exists result |].
  destruct (probe_scan_files_raise cfg h e Hscan) as [sp [Hin Hsp]].
  rewrite Forall_forall in Hres.
  destruct (Hres sp Hin) as [path [found [Hpath Hfound]]].
  destruct Hsp as [H | [path' [H H']]]; congruence.
Qed.

(** C7 at its failing input: a root below a directory that may not be
    searched.  [exists] raises PermissionError for it, outside the [try]
    of either loop, and the exception leaves the scan whichever backend
    runs, although the other two roots can be scanned: without that root
    the walker returns their four files, and the delegate, whose utility
    fails on the first root, the file of the last one. *)
Theorem unsearchable_root_raises :
  host_exists locked_host "/locked/docs" = Raise (OSError "PermissionError")
  /\ Probe._scan_with_python (Some locked_config) locked_host
     = Raise (OSError "PermissionError")
  /\ Probe._scan_with_fd (Some locked_config) locked_host_fd
     = Raise (OSError "PermissionError")
  /\ Probe._scan_files (Some locked_config) locked_host
     = Raise (OSError "PermissionError")
  /\ Probe._scan_files (Some locked_config) locked_host_fd
     = Raise (OSError "PermissionError")
  /\ Probe._scan_files (Some wide_config) locked_host
     = Ok ["/srv/a/one.txt"; "/srv/a/two.md"; "/srv/a/sub/three.txt";
           "/srv/b/four.txt"]
  /\ host_subprocess_run locked_host_fd (fd_cmd wide_config "/srv/a")
     = Ok (2%Z, EmptyString)
  /\ Probe._scan_files (Some wide_config) locked_host_fd
     = Ok ["/srv/b/four.txt"].
Proof. repeat split; reflexivity. Qed.

(** C8 at its failing input: a root in the home directory of a user that
    does not exist.  [expanduser] raises RuntimeError for it before the
    test of existence is reached, and the exception leaves the scan
    whichever backend runs; a root that does not exist below a directory
    that may not be searched raises PermissionError in the same way.  A
    root at whose path [stat] finds nothing is dropped as claimed, and
    the root after it is scanned. *)
Theorem unresolvable_root_raises :
  host_expanduser locked_host "~ghost/notes"
  = Raise (RuntimeError "Could not determine home directory.")
  /\ Probe._scan_with_python (Some ghost_config) locked_host
     = Raise (RuntimeError "Could not determine home directory.")
  /\ Probe._scan_with_fd (Some ghost_config) locked_host_fd
     = Raise (RuntimeError "Could not determine home directory.")
  /\ Probe._scan_files (Some ghost_config) locked_host
     = Raise (RuntimeError "Could not determine home directory.")
  /\ Probe._scan_files (Some ghost_config) locked_host_fd
     = Raise (RuntimeError "Could not determine home directory.")
  /\ Probe._scan_files (Some below_locked_config) locked_host
     = Raise (OSError "PermissionError")
  /\ Probe._scan_files (Some below_locked_config) locked_host_fd
     = Raise (OSError "PermissionError")
  /\ absent locked_host "/srv/missing" = true
  /\ Probe._scan_files (Some missing_config) locked_host
     = Ok ["/srv/b/four.txt"]
  /\ Probe._scan_files (Some missing_config) locked_host_fd
     = Ok ["/srv/b/four.txt"].
Proof. repeat split; reflexivity. Qed.

(** * The two backends under the contract of the utility *)

Section Contract.





(** ** Extensions as the utility and as the walker read them *)








End Contract.

(** ** Parity *)





